(** * Remote-read handler of the Prometheus/Elasticsearch adapter

    A shallow embedding of [reader/handler.go]: the HTTP handler [Handle],
    the row grouper [responseToTimeseries] and the series key [buildKey],
    together with the properties the specification states about them. *)

From Stdlib Require Import ssreflect ZArith Lia Ascii String.
From Stdlib Require Import Floats.PrimFloat.
From stdpp Require Import base option list sorting gmap strings pretty fin_maps.

Local Open Scope Z_scope.
Local Set Warnings "-register-all,-rewrite-rw".

(** ** Outcomes of Go code that may panic *)

(** The two run-time panics the handler can raise: calling a method on a nil
    interface value, and a failed single-value type assertion [v.(T)]. *)
Inductive panic : Set :=
  | NilDereference
  | InterfaceConversion.

Inductive result (A : Type) : Type :=
  | Done (a : A)
  | Panics (p : panic).
Arguments Done {A} a.
Arguments Panics {A} p.

Global Instance result_ret : MRet result := λ A a, Done a.

Global Instance result_bind : MBind result := λ A B k r,
  match r with
  | Done a => k a
  | Panics p => Panics p
  end.

(** ** Values of type [interface{}] found in a row

    The store client decodes JSON documents, so a field holds nil, a string,
    a float64, a bool or a slice of such values. *)
Inductive iface : Type :=
  | INil
  | IString (s : string)
  | IFloat64 (f : float)
  | IBool (b : bool)
  | ISlice (l : list iface).

(** [v.(string)] *)
Definition assert_string (v : iface) : result string :=
  match v with
  | IString s => Done s
  | _ => Panics InterfaceConversion
  end.

(** [v.(float64)] *)
Definition assert_float64 (v : iface) : result float :=
  match v with
  | IFloat64 f => Done f
  | _ => Panics InterfaceConversion
  end.

(** [m[k]] on a [map[string]interface{}]: the nil interface when absent. *)
Definition index (m : gmap string iface) (k : string) : iface :=
  default INil (m !! k).

(** ** 64-bit integers *)

Definition wrap64 (z : Z) : Z := (z + 2^63) `mod` 2^64 - 2^63.

(** ** The [time] package, as far as [time.Parse(time.RFC3339, s)] and
    [t.UTC().UnixNano()] go

    A [Time] is kept as its instant: seconds since the Unix epoch and the
    nanoseconds within the second. The location a parsed time carries does
    not change the instant, and [UTC()] only replaces it. *)
Module time.

Record Time : Set := { unixSec : Z; nsec : Z }.

(** Seconds from January 1, year 1 to the Unix epoch. *)
Definition unixToInternal : Z := (1969 * 365 + 1969 / 4 - 1969 / 100 + 1969 / 400) * 86400.

(** [Time{}]: January 1, year 1, 00:00:00 UTC. *)
Definition zero : Time := {| unixSec := - unixToInternal; nsec := 0 |}.

Definition Millisecond : Z := 1000000.

Definition isLeap (year : Z) : bool :=
  (year `mod` 4 =? 0) && (negb (year `mod` 100 =? 0) || (year `mod` 400 =? 0)).

Definition daysBefore (month : Z) : Z :=
  match month with
  | 1 => 0 | 2 => 31 | 3 => 59 | 4 => 90 | 5 => 120 | 6 => 151
  | 7 => 181 | 8 => 212 | 9 => 243 | 10 => 273 | 11 => 304 | 12 => 334
  | _ => 365
  end.

Definition daysIn (month year : Z) : Z :=
  if (month =? 2) && isLeap year then 29
  else daysBefore (month + 1) - daysBefore month.

(** Days from January 1, year 1 to January 1 of [year]. *)
Definition daysSinceEpoch (year : Z) : Z :=
  let y := year - 1 in 365 * y + y / 4 - y / 100 + y / 400.

(** [Date(year, month, day, hour, min, sec, nsec, UTC)] for arguments
    already in range. *)
Definition Date (year month day hour min sec ns : Z) : Time :=
  let d := daysSinceEpoch year + daysBefore month
           + (if isLeap year && (3 <=? month) then 1 else 0) + (day - 1) in
  {| unixSec := d * 86400 + hour * 3600 + min * 60 + sec - unixToInternal;
     nsec := ns |}.

Definition addSec (t : Time) (d : Z) : Time :=
  {| unixSec := unixSec t + d; nsec := nsec t |}.

Definition UTC (t : Time) : Time := t.

(** [UnixNano]: int64 arithmetic, wrapping outside the representable years. *)
Definition UnixNano (t : Time) : Z := wrap64 (unixSec t * 1000000000 + nsec t).

(** *** Parsing with the layout [RFC3339 = "2006-01-02T15:04:05Z07:00"]

    The steps of the package's [parse] loop for the chunks of this layout:
    a four-digit year, two-digit month and day, an hour of one or two
    digits, two-digit minute and second, an optional fraction of a second
    (a period or comma followed by digits), and a zone that is either [Z]
    or a signed [hh:mm] offset. *)

Definition isDigitChar (c : ascii) : bool :=
  let n := N_of_ascii c in (48 <=? n)%N && (n <=? 57)%N.

Definition digitVal (c : ascii) : Z := Z.of_N (N_of_ascii c) - 48.

(** [s[n:]] and [s[:n]] *)
Fixpoint from (n : nat) (s : string) : string :=
  match n, s with
  | S n', String _ s' => from n' s'
  | _, _ => s
  end.

Fixpoint upto (n : nat) (s : string) : string :=
  match n, s with
  | S n', String c s' => String c (upto n' s')
  | _, _ => ""
  end.

Definition isDigit (s : string) (i : nat) : bool :=
  match String.get i s with
  | Some c => isDigitChar c
  | None => false
  end.

Definition commaOrPeriod (c : ascii) : bool :=
  bool_decide (c = "."%char) || bool_decide (c = ","%char).

(** Decimal digits at the start of [s], and what follows them. *)
Fixpoint leadingInt (acc : Z) (s : string) : Z * string :=
  match s with
  | String c s' => if isDigitChar c then leadingInt (acc * 10 + digitVal c) s' else (acc, s)
  | "" => (acc, s)
  end.

Definition atoi (s : string) : option Z :=
  let '(neg, s) :=
    match s with
    | String c s' =>
        if bool_decide (c = "-"%char) then (true, s')
        else if bool_decide (c = "+"%char) then (false, s')
        else (false, s)
    | "" => (false, s)
    end in
  let '(q, rem) := leadingInt 0 s in
  if bool_decide (rem = "") then Some (if neg then - q else q) else None.

Definition getnum (s : string) (fixed : bool) : option (Z * string) :=
  match s with
  | String a s1 =>
      if isDigitChar a then
        match s1 with
        | String b s2 =>
            if isDigitChar b then Some (digitVal a * 10 + digitVal b, s2)
            else if fixed then None else Some (digitVal a, s1)
        | "" => if fixed then None else Some (digitVal a, s1)
        end
      else None
  | "" => None
  end.

Fixpoint skip (value prefix : string) : option string :=
  match prefix with
  | "" => Some value
  | String p prefix' =>
      match value with
      | String v value' => if bool_decide (v = p) then skip value' prefix' else None
      | "" => None
      end
  end.

(** Number of digits at the start of [s]. *)
Fixpoint digitRun (s : string) : nat :=
  match s with
  | String c s' => if isDigitChar c then S (digitRun s') else O
  | "" => O
  end.

(** [parseNanoseconds(value, nbytes)]: at most nine digits count. *)
Definition parseNanoseconds (value : string) (nbytes : nat) : option Z :=
  let nbytes := Nat.min nbytes 10 in
  ns ← atoi (from 1 (upto nbytes value));
  Some (ns * 10 ^ Z.of_nat (10 - nbytes)).

(** The fraction of a second that may follow the seconds. *)
Definition fraction (value : string) : option (Z * string) :=
  match value with
  | String c rest =>
      if commaOrPeriod c && isDigit value 1 then
        let n := S (digitRun rest) in
        ns ← parseNanoseconds value n;
        Some (ns, from n value)
      else Some (0, value)
  | "" => Some (0, value)
  end.

(** The chunk [Z07:00]: the offset east of UTC in seconds. *)
Definition zone (value : string) : option (Z * string) :=
  match value with
  | String "Z" rest => Some (0, rest)
  | _ =>
      if (String.length value <? 6)%nat then None
      else if negb (bool_decide (String.get 3 value = Some ":"%char)) then None
      else
        '(hr, _) ← getnum (upto 2 (from 1 value)) true;
        '(mm, _) ← getnum (upto 2 (from 4 value)) true;
        if (24 <? hr) || (60 <? mm) then None
        else
          let zoneOffset := (hr * 60 + mm) * 60 in
          match String.get 0 value with
          | Some "+"%char => Some (zoneOffset, from 6 value)
          | Some "-"%char => Some (- zoneOffset, from 6 value)
          | _ => None
          end
  end.

(** [Parse(RFC3339, value)], [None] standing for a non-nil error (the
    package then returns [Time{}] next to it). *)
Definition Parse_RFC3339 (value : string) : option Time :=
  '(year, value) ←
    (if (4 <=? String.length value)%nat && isDigit value 0
     then year ← atoi (upto 4 value); Some (year, from 4 value)
     else None);
  value ← skip value "-";
  '(month, value) ← getnum value true;
  if (month <=? 0) || (12 <? month) then None else
  value ← skip value "-";
  '(day, value) ← getnum value true;
  value ← skip value "T";
  '(hour, value) ← getnum value false;
  if 24 <=? hour then None else
  value ← skip value ":";
  '(min, value) ← getnum value true;
  if 60 <=? min then None else
  value ← skip value ":";
  '(sec, value) ← getnum value true;
  if 60 <=? sec then None else
  '(ns, value) ← fraction value;
  '(zoneOffset, value) ← zone value;
  if negb (bool_decide (value = "")) then None else
  if (day <? 1) || (daysIn month year <? day) then None else
  Some (addSec (Date year month day hour min sec ns) (- zoneOffset)).

End time.


(** ** Protocol messages ([prompb]) *)

Record Label : Type := { Label_Name : string; Label_Value : string }.

Record Sample : Type := { Sample_Timestamp : Z; Sample_Value : float }.

Record TimeSeries : Type := { Labels : list Label; Samples : list Sample }.

(** ** Rows and the order of [range] over a map

    A row is a [map[string]interface{}]. Go leaves the order in which [range]
    visits a map unspecified, and it may change from one loop to the next,
    also over the same map. A [RangeOrder] fixes one order for every loop the
    program runs: the [n]-th loop over the map [m] visits [range_order n m],
    some arrangement of the entries of [m]. *)
Abbreviation Row := (gmap string iface).

Record RangeOrder : Type := {
  range_order : ∀ A : Type, nat → gmap string A → list (string * A);
  range_order_perm : ∀ A n (m : gmap string A), range_order A n m ≡ₚ map_to_list m
}.
Arguments range_order _ {A} n m.

(** The order in which [map_to_list] lists the entries. *)
Definition canonical : RangeOrder :=
  {| range_order := λ A _ m, map_to_list m;
     range_order_perm := λ A _ m, reflexivity (map_to_list m) |}.

(** That order backwards. *)
Definition backwards : RangeOrder :=
  {| range_order := λ A _ m, reverse (map_to_list m);
     range_order_perm := λ A _ m, reverse_Permutation (map_to_list m) |}.

(** [for _, x := range l { s = body(s, x) }], stopping at the first panic. *)
Fixpoint for_range {S A : Type} (body : S → A → result S) (s : S) (l : list A) : result S :=
  match l with
  | [] => mret s
  | x :: l' => s' ← body s x; for_range body s' l'
  end.

(** ** [buildKey] *)

(** [sort.Strings]: ascending byte-wise order. *)
Definition sort_Strings (keys : list string) : list string := merge_sort String.le keys.

(** [strings.Join(elems, sep)] *)
Definition strings_Join (elems : list string) (sep : string) : string := String.concat sep elems.

(** [k != "value" && k != "timestamp"] *)
Definition is_label (k : string) : bool :=
  negb (bool_decide (k = "value")) && negb (bool_decide (k = "timestamp")).

Definition buildKey (o : RangeOrder) (n : nat) (datapoint : Row) : result string :=
  keys ← for_range (λ (keys : list string) '(k, v),
            if is_label k then s ← assert_string v; mret (keys ++ [s]) else mret keys)
          [] (range_order o n datapoint);
  mret (strings_Join (sort_Strings keys) ",").

(** ** [responseToTimeseries] *)

(** The loop of lines 96-103 that collects the label pairs of a new series. *)
Definition labelPairsOf (o : RangeOrder) (n : nat) (datapoint : Row) : result (list Label) :=
  for_range (λ (labelPairs : list Label) '(k, v),
      if is_label k
      then s ← assert_string v; mret (labelPairs ++ [{| Label_Name := k; Label_Value := s |}])
      else mret labelPairs)
    [] (range_order o n datapoint).

(** [t, _ := time.Parse(time.RFC3339, s)]: the error is dropped, and [t] is
    [Time{}] when there is one. Then [t.UTC().UnixNano() / int64(time.Millisecond)],
    a division that truncates towards zero. *)
Definition timeInMillis (s : string) : Z :=
  let t := default time.zero (time.Parse_RFC3339 s) in
  Z.quot (time.UnixNano (time.UTC t)) time.Millisecond.

(** One turn of the loop over the data points. The state is the map
    [labelsToSeries] and the number of [range] loops over maps run so far.
    The map holds pointers, so appending to [ts.Samples] changes the series
    stored under [key]: the entry is rewritten with the longer sequence. *)
Definition groupRow (o : RangeOrder) (st : gmap string TimeSeries * nat) (datapoint : Row)
    : result (gmap string TimeSeries * nat) :=
  let '(labelsToSeries, n) := st in
  key ← buildKey o n datapoint;
  ts ← match labelsToSeries !! key with
       | Some ts => mret ts
       | None =>
           labelPairs ← labelPairsOf o (S n) datapoint;
           mret {| Labels := labelPairs; Samples := [] |}
       end;
  timestamp ← assert_string (index datapoint "timestamp");
  value ← assert_float64 (index datapoint "value");
  let sample := {| Sample_Timestamp := timeInMillis timestamp; Sample_Value := value |} in
  mret (<[key := {| Labels := Labels ts; Samples := Samples ts ++ [sample] |}]> labelsToSeries,
        S (S n)).

Definition responseToTimeseries (o : RangeOrder) (dataPoints : list Row) : result (list TimeSeries) :=
  '(labelsToSeries, n) ← for_range (groupRow o) (∅, O) dataPoints;
  mret (snd <$> range_order o n labelsToSeries).

(** ** [Handle]

    The collaborators of the handler are outside this package: the request
    body, the snappy and protobuf codecs, the store client built by
    [config.BuildClient] and the connection behind the response writer. An
    [Env] gives what each of them answers. Byte slices are kept as strings,
    which are sequences of bytes. The timer of lines 20-21 and 37 only feeds
    a metric and is left out. *)

(** A value of the interface type [error]: nil, or an error with the text
    its [Error] method returns. *)
Definition error : Type := option string.

(** [err != nil] *)
Definition notNil (err : error) : bool :=
  match err with
  | Some _ => true
  | None => false
  end.

(** [err.Error()]: a method call through the nil interface panics. *)
Definition Error (err : error) : result string :=
  match err with
  | Some msg => Done msg
  | None => Panics NilDereference
  end.

Record LabelMatcher : Type := { Matcher_Type : Z; Matcher_Name : string; Matcher_Value : string }.

Record Query : Type := {
  StartTimestampMs : Z;
  EndTimestampMs : Z;
  Matchers : list LabelMatcher
}.

Record ReadRequest : Type := { Queries : list Query }.

Record QueryResult : Type := { Timeseries : list TimeSeries }.

Record ReadResponse : Type := { Results : list QueryResult }.

(** [*http.Request], of which the handler reads only the body: the bytes
    the stream delivers and the error that ends it, nil at end of file. *)
Record Request : Type := { Body : string * error }.

Record Env : Type := {
  snappy_Decode : string → string * error;
  proto_Unmarshal : string → ReadRequest * error;
  reader_Read : ReadRequest → list Row * error;
  proto_Marshal : ReadResponse → string * error;
  snappy_Encode : string → string;
  (** the error a write to the connection reports *)
  conn_Write : string → error;
  map_order : RangeOrder
}.

(** An [http.ResponseWriter]: the header map, the status code once it has
    been sent, and the byte slices handed to [Write] so far, in order. *)
Record ResponseWriter : Type := {
  header : gmap string string;
  status : option Z;
  written : list string
}.

(** What a run of the handler changes: the response writer, the requests
    passed to the store client's [Read], and the lines logged. *)
Record World : Type := {
  w : ResponseWriter;
  reads : list ReadRequest;
  logged : list string
}.

Definition fresh : World :=
  {| w := {| header := ∅; status := None; written := [] |}; reads := []; logged := [] |}.

Definition StatusOK : Z := 200.
Definition StatusBadRequest : Z := 400.
Definition StatusInternalServerError : Z := 500.

(** Computations that change the world and may panic. After a panic the
    world is the one the panic left behind. *)
Definition M (A : Type) : Type := World → result A * World.

Global Instance M_ret : MRet M := λ A a σ, (Done a, σ).

Global Instance M_bind : MBind M := λ A B k m σ,
  match m σ with
  | (Done a, σ') => k a σ'
  | (Panics p, σ') => (Panics p, σ')
  end.

Definition lift {A} (r : result A) : M A := λ σ, (r, σ).

Definition modify_w (f : ResponseWriter → ResponseWriter) : M unit :=
  λ σ, (Done tt, {| w := f (w σ); reads := reads σ; logged := logged σ |}).

Definition log (line : string) : M unit :=
  λ σ, (Done tt, {| w := w σ; reads := reads σ; logged := logged σ ++ [line] |}).

(** [w.Header().Set(k, v)] *)
Definition Header_Set (k v : string) : M unit :=
  modify_w (λ rw,
    {| header := <[k := v]> (header rw); status := status rw; written := written rw |}).

(** [w.WriteHeader(code)]: a second call changes nothing. *)
Definition WriteHeader (code : Z) : M unit :=
  modify_w (λ rw,
    {| header := header rw;
       status := match status rw with Some c => Some c | None => Some code end;
       written := written rw |}).

(** [w.Write(data)]: sends the status 200 first when none was sent. *)
Definition Write (env : Env) (data : string) : M error :=
  WriteHeader StatusOK;;
  modify_w (λ rw,
    {| header := header rw; status := status rw; written := written rw ++ [data] |});;
  mret (conn_Write env data).

Definition newline : string := String "010"%char "".

(** [http.Error(w, error, code)]: a plain-text reply, the text on a line of
    its own; the result of the write is dropped. *)
Definition http_Error (env : Env) (msg : string) (code : Z) : M unit :=
  Header_Set "Content-Type" "text/plain; charset=utf-8";;
  Header_Set "X-Content-Type-Options" "nosniff";;
  WriteHeader code;;
  _ ← Write env (msg +:+ newline);
  mret tt.

(** [reader.Read(&req)] *)
Definition Read (env : Env) (req : ReadRequest) : M (list Row * error) :=
  λ σ, (Done (reader_Read env req),
        {| w := w σ; reads := reads σ ++ [req]; logged := logged σ |}).

Definition Handle (env : Env) (r : Request) : M unit :=
  let '(compressed, err) := Body r in
  if notNil err then
    log "Failed to read body.";;
    msg ← lift (Error err);
    http_Error env msg StatusBadRequest
  else
  let '(reqBuf, err) := snappy_Decode env compressed in
  if notNil err then
    log "Failed to decompress body.";;
    msg ← lift (Error err);
    http_Error env msg StatusBadRequest
  else
  let '(req, err1) := proto_Unmarshal env reqBuf in
  if notNil err1 then
    log "Failed to unmarshal body.";;
    msg ← lift (Error err);
    http_Error env msg StatusBadRequest
  else
  if negb (bool_decide (length (Queries req) = 1%nat)) then
    log "More than one query sent.";;
    http_Error env "Can only handle one query." StatusBadRequest
  else
  '(datapoints, err) ← Read env req;
  if notNil err then
    log "Failed to run select.";;
    msg ← lift (Error err);
    http_Error env msg StatusInternalServerError
  else
  timeseries ← lift (responseToTimeseries (map_order env) datapoints);
  let resp := {| Results := [{| Timeseries := timeseries |}] |} in
  log ("Returned " +:+ pretty (length timeseries) +:+ " time series.");;
  let '(data, err) := proto_Marshal env resp in
  if notNil err then
    msg ← lift (Error err);
    http_Error env msg StatusInternalServerError
  else
  Header_Set "Content-Type" "application/x-protobuf";;
  Header_Set "Content-Encoding" "snappy";;
  let compressed := snappy_Encode env data in
  err ← Write env compressed;
  if notNil err then
    msg ← lift (Error err);
    http_Error env msg StatusInternalServerError
  else mret tt.

(** ** What a row carries *)

Definition is_string (v : iface) : bool :=
  match v with IString _ => true | _ => false end.

Definition is_float64 (v : iface) : bool :=
  match v with IFloat64 _ => true | _ => false end.

Definition stringOf (v : iface) : string :=
  match v with IString s => s | _ => "" end.

Definition float64Of (v : iface) : float :=
  match v with IFloat64 f => f | _ => 0%float end.

(** The entries of a row that are labels, in the order [map_to_list] gives. *)
Definition labelEntries (entries : list (string * iface)) : list (string * iface) :=
  filter (λ kv, is_label kv.1) entries.

(** Every label of the row holds a string. *)
Definition labelsTyped (datapoint : Row) : bool :=
  forallb (λ kv, is_string kv.2) (labelEntries (map_to_list datapoint)).

(** The precondition on a row: label values are strings, [timestamp] is a
    string and [value] is a float64. *)
Definition rowTyped (datapoint : Row) : bool :=
  labelsTyped datapoint
  && is_string (index datapoint "timestamp")
  && is_float64 (index datapoint "value").

(** The label values of a row, with their multiplicity. *)
Definition labelValues (datapoint : Row) : list string :=
  (λ kv, stringOf kv.2) <$> labelEntries (map_to_list datapoint).

(** The label names of a row. *)
Definition labelNames (datapoint : Row) : list string :=
  fst <$> labelEntries (map_to_list datapoint).

(** The label pairs of a row. *)
Definition labelPairs (datapoint : Row) : list Label :=
  (λ kv, {| Label_Name := kv.1; Label_Value := stringOf kv.2 |})
    <$> labelEntries (map_to_list datapoint).

(** The Series Key as the specification words it: the label values of the
    row, sorted and joined with commas. *)
Definition seriesKey (datapoint : Row) : string :=
  strings_Join (sort_Strings (labelValues datapoint)) ",".

(** The sample a typed row carries. *)
Definition sampleOf (datapoint : Row) : Sample :=
  {| Sample_Timestamp := timeInMillis (stringOf (index datapoint "timestamp"));
     Sample_Value := float64Of (index datapoint "value") |}.

(** The rows of a sequence that have the Series Key [key], in their order. *)
Definition rowsOf (key : string) (dataPoints : list Row) : list Row :=
  filter (λ datapoint, seriesKey datapoint = key) dataPoints.

Fixpoint commaFree (s : string) : bool :=
  match s with
  | String c s' => negb (bool_decide (c = ","%char)) && commaFree s'
  | "" => true
  end.

(** Number of samples in a collection of series. *)
Definition sampleCount (series : list TimeSeries) : nat :=
  sum_list (length ∘ Samples <$> series).

(** The map [labelsToSeries] groups a row sequence: a key is present when
    some row has it, the series under it has the label pairs of the first
    such row and the samples of all such rows, in their order. *)
Definition grouped (dataPoints : list Row) (m : gmap string TimeSeries) : Prop :=
  ∀ key,
    match rowsOf key dataPoints with
    | [] => m !! key = None
    | first :: _ =>
        ∃ ts, m !! key = Some ts
              ∧ Labels ts ≡ₚ labelPairs first
              ∧ Samples ts = sampleOf <$> rowsOf key dataPoints
    end.

(** The Series Key of a series, from the values of its labels. *)
Definition keyOfSeries (ts : TimeSeries) : string :=
  strings_Join (sort_Strings (Label_Value <$> Labels ts)) ",".

(** ** The scenario of the specification *)

Definition point (name host : string) (v : float) (timestamp : string) : Row :=
  <[name := IString host]>
    (<["value" := IFloat64 v]> (<["timestamp" := IString timestamp]> ∅)).

Definition scenario : list Row :=
  [ point "host" "a" 1.0%float "2024-01-01T00:00:00Z";
    point "host" "a" 2.0%float "2024-01-01T00:01:00Z";
    point "host" "b" 3.0%float "2024-01-01T00:00:00Z" ].

Definition seriesA : TimeSeries :=
  {| Labels := [{| Label_Name := "host"; Label_Value := "a" |}];
     Samples := [{| Sample_Timestamp := 1704067200000; Sample_Value := 1.0%float |};
                 {| Sample_Timestamp := 1704067260000; Sample_Value := 2.0%float |}] |}.

Definition seriesB : TimeSeries :=
  {| Labels := [{| Label_Name := "host"; Label_Value := "b" |}];
     Samples := [{| Sample_Timestamp := 1704067200000; Sample_Value := 3.0%float |}] |}.

(** [Time{}] in milliseconds, as [timeInMillis] computes it: the seconds of
    year 1 times 10^9 do not fit an int64, so [UnixNano] wraps. *)
Definition zeroTimeMillis : Z :=
  Z.quot (time.UnixNano (time.UTC time.zero)) time.Millisecond.

(** ** Rows that share their label values under different names *)

Definition renamed : list Row :=
  [ point "host" "x" 1.0%float "2024-01-01T00:00:00Z";
    point "node" "x" 2.0%float "2024-01-01T00:01:00Z" ].

(** A row whose timestamp is not a timestamp, between two that are. *)
Definition garbled : Row := point "host" "a" 2.0%float "yesterday".

Definition early : Row := point "host" "a" 1.0%float "2024-01-01T00:00:00Z".

Definition late : Row := point "host" "a" 3.0%float "2024-01-01T00:02:00Z".

(** ** Environments for the examples

    Stand-ins for the collaborators: the codecs leave the bytes as they
    are, every body decodes to [req], the store answers [answer], and the
    connection takes every write. *)
Definition oneQuery : ReadRequest :=
  {| Queries := [{| StartTimestampMs := 0; EndTimestampMs := 60000; Matchers := [] |}] |}.

Definition twoQueries : ReadRequest :=
  {| Queries := Queries oneQuery ++ Queries oneQuery |}.

Definition served (req : ReadRequest) (answer : list Row * error) : Env :=
  {| snappy_Decode := λ compressed, (compressed, None);
     proto_Unmarshal := λ _, (req, None);
     reader_Read := λ _, answer;
     proto_Marshal := λ _, ("response", None);
     snappy_Encode := λ data, data;
     conn_Write := λ _, None;
     map_order := canonical |}.

(** The snappy block [01 00 ff] holds the single byte [ff], which is not a
    Read Request: the varint that starts a field is cut short. *)
Definition truncatedBlock : string := String "001" (String "000" (String "255" "")).

Definition truncated : Env :=
  {| snappy_Decode := λ compressed,
       if bool_decide (compressed = truncatedBlock) then (String "255" "", None)
       else ("", Some "snappy: corrupt input");
     proto_Unmarshal := λ _, ({| Queries := [] |}, Some "unexpected EOF");
     reader_Read := λ _, ([], None);
     proto_Marshal := λ _, ("response", None);
     snappy_Encode := λ data, data;
     conn_Write := λ _, None;
     map_order := canonical |}.

Definition post (payload : string) : Request := {| Body := (payload, None) |}.

(** A row whose label holds a number. *)
Definition numbered : Row :=
  <["host" := IFloat64 7.0%float]> (point "zone" "a" 1.0%float "2024-01-01T00:00:00Z").

(** The request fails at the deserialization step. *)
Definition unmarshalFails (env : Env) (r : Request) : bool :=
  match Body r with
  | (compressed, None) =>
      match snappy_Decode env compressed with
      | (reqBuf, None) => notNil (proto_Unmarshal env reqBuf).2
      | _ => false
      end
  | _ => false
  end.

(** The rows the store hands back, when the request gets that far. *)
Definition storeRows (env : Env) (r : Request) : option (list Row) :=
  match Body r with
  | (compressed, None) =>
      match snappy_Decode env compressed with
      | (reqBuf, None) =>
          match proto_Unmarshal env reqBuf with
          | (req, None) =>
              if bool_decide (length (Queries req) = 1%nat) then
                match reader_Read env req with
                | (rows, None) => Some rows
                | _ => None
                end
              else None
          | _ => None
          end
      | _ => None
      end
  | _ => None
  end.

(** An environment in which the store answers the scenario, the response
    cannot be serialized when [marshal] carries an error, and the connection
    reports [write] for every write. *)
Definition answering (marshal write : error) : Env :=
  {| snappy_Decode := λ compressed, (compressed, None);
     proto_Unmarshal := λ _, (oneQuery, None);
     reader_Read := λ _, (scenario, None);
     proto_Marshal := λ _, ("response", marshal);
     snappy_Encode := λ data, "snappy:" +:+ data;
     conn_Write := λ _, write;
     map_order := canonical |}.

(** Two rows with the same set of label values, one of which carries the
    value twice. *)
Definition twice : Row :=
  <["a" := IString "x"]> (point "b" "x" 1.0%float "2024-01-01T00:00:00Z").

Definition once : Row := point "c" "x" 2.0%float "2024-01-01T00:01:00Z".

(** * Properties *)

Example Parse_RFC3339_midnight :
  time.Parse_RFC3339 "2024-01-01T00:00:00Z" = Some {| time.unixSec := 1704067200; time.nsec := 0 |}.
Proof. vm_compute. reflexivity. Qed.

(** ** The loops over a row *)

Section collect.
Context {B : Type} (f : string * iface → B).

Definition collectBody (acc : list B) (kv : string * iface) : result (list B) :=
  if is_label kv.1 then s ← assert_string kv.2; mret (acc ++ [f (kv.1, IString s)]) else mret acc.

Lemma for_range_collect entries acc :
  forallb (λ kv, is_string kv.2) (labelEntries entries) = true →
  for_range collectBody acc entries = Done (acc ++ (f <$> labelEntries entries)).
Proof.
  revert acc. induction entries as [|[k v] entries IH]; intros acc Hty.
  - by rewrite /= app_nil_r.
  - rewrite /labelEntries filter_cons /= in Hty |- *.
    rewrite /collectBody /=. destruct (is_label k) eqn:Hk; simpl in *.
    + apply andb_prop in Hty as [Hv Hty]. destruct v; try done.
      simpl. rewrite IH //. by rewrite -app_assoc.
    + by apply IH.
Qed.

Lemma for_range_collect_panics entries acc :
  forallb (λ kv, is_string kv.2) (labelEntries entries) = false →
  for_range collectBody acc entries = Panics InterfaceConversion.
Proof.
  revert acc. induction entries as [|[k v] entries IH]; intros acc Hty; first done.
  rewrite /labelEntries filter_cons /= in Hty |- *.
  rewrite /collectBody /=. destruct (is_label k) eqn:Hk; simpl in *.
  - destruct v; try done. by apply IH.
  - by apply IH.
Qed.
End collect.

Lemma for_range_ext {S A} (body1 body2 : S → A → result S) s l :
  (∀ s x, body1 s x = body2 s x) → for_range body1 s l = for_range body2 s l.
Proof.
  intros Hext. revert s. induction l as [|x l IH]; intros s; first done.
  simpl. rewrite Hext. destruct (body2 s x); simpl; auto.
Qed.

Lemma for_range_app {S A} (body : S → A → result S) s l1 l2 :
  for_range body s (l1 ++ l2) = (s' ← for_range body s l1; for_range body s' l2).
Proof.
  revert s. induction l1 as [|x l1 IH]; intros s; first done.
  simpl. destruct (body s x); simpl; auto.
Qed.

Lemma for_range_cons {S A} (body : S → A → result S) s x l :
  for_range body s (x :: l) = (s' ← body s x; for_range body s' l).
Proof. done. Qed.

Lemma for_range_snoc {S A} (body : S → A → result S) s l x :
  for_range body s (l ++ [x]) = (s' ← for_range body s l; body s' x).
Proof.
  rewrite for_range_app. destruct (for_range body s l) as [s'|]; simpl; last done.
  by destruct (body s' x).
Qed.

Lemma forallb_perm {A} (f : A → bool) l1 l2 :
  l1 ≡ₚ l2 → forallb f l1 = forallb f l2.
Proof.
  induction 1 as [|x l1 l2 _ IH|x y l|l1 l2 l3 _ IH1 _ IH2]; simpl.
  - done.
  - by rewrite IH.
  - by destruct (f x), (f y).
  - by rewrite IH1.
Qed.

Lemma labelEntries_perm l1 l2 : l1 ≡ₚ l2 → labelEntries l1 ≡ₚ labelEntries l2.
Proof. intros H. rewrite /labelEntries. by rewrite H. Qed.

Lemma labelEntries_range (o : RangeOrder) n (datapoint : Row) :
  labelEntries (range_order o n datapoint) ≡ₚ labelEntries (map_to_list datapoint).
Proof. apply labelEntries_perm, range_order_perm. Qed.

(** ** Sorting *)

Lemma sort_Strings_perm l1 l2 : l1 ≡ₚ l2 → sort_Strings l1 = sort_Strings l2.
Proof.
  intros H. apply (Sorted_unique String.le).
  - apply Sorted_merge_sort, _.
  - apply Sorted_merge_sort, _.
  - by rewrite /sort_Strings !merge_sort_Permutation.
Qed.

Lemma sort_Strings_inj l1 l2 : sort_Strings l1 = sort_Strings l2 → l1 ≡ₚ l2.
Proof.
  intros H. rewrite -(merge_sort_Permutation String.le l1).
  rewrite -(merge_sort_Permutation String.le l2). by rewrite -/(sort_Strings _) H.
Qed.

(** ** [buildKey] computes the Series Key *)

Lemma buildKey_typed o n (datapoint : Row) :
  labelsTyped datapoint = true → buildKey o n datapoint = Done (seriesKey datapoint).
Proof.
  intros Hty. rewrite /buildKey.
  rewrite (for_range_ext _ (collectBody (λ kv, stringOf kv.2))); first by intros s [k v].
  rewrite for_range_collect.
  { by rewrite (forallb_perm _ _ _ (labelEntries_range o n datapoint)). }
  simpl. rewrite /seriesKey /labelValues. f_equal. f_equal.
  apply sort_Strings_perm. by rewrite labelEntries_range.
Qed.

Lemma buildKey_untyped o n (datapoint : Row) :
  labelsTyped datapoint = false → buildKey o n datapoint = Panics InterfaceConversion.
Proof.
  intros Hty. rewrite /buildKey.
  rewrite (for_range_ext _ (collectBody (λ kv, stringOf kv.2))); first by intros s [k v].
  rewrite for_range_collect_panics //.
  by rewrite (forallb_perm _ _ _ (labelEntries_range o n datapoint)).
Qed.

Lemma labelPairsOf_typed o n (datapoint : Row) :
  labelsTyped datapoint = true →
  ∃ pairs, labelPairsOf o n datapoint = Done pairs ∧ pairs ≡ₚ labelPairs datapoint.
Proof.
  intros Hty. rewrite /labelPairsOf.
  rewrite (for_range_ext _
    (collectBody (λ kv, {| Label_Name := kv.1; Label_Value := stringOf kv.2 |})));
    first by intros s [k v].
  rewrite for_range_collect.
  { by rewrite (forallb_perm _ _ _ (labelEntries_range o n datapoint)). }
  eexists; split; first done.
  by rewrite /= /labelPairs labelEntries_range.
Qed.

(** ** One turn of the grouping loop *)

Lemma groupRow_typed o (m : gmap string TimeSeries) n (datapoint : Row) :
  rowTyped datapoint = true →
  ∃ pairs, pairs ≡ₚ labelPairs datapoint ∧
    groupRow o (m, n) datapoint =
      Done (<[seriesKey datapoint :=
               {| Labels := from_option Labels pairs (m !! seriesKey datapoint);
                  Samples := from_option Samples [] (m !! seriesKey datapoint)
                             ++ [sampleOf datapoint] |}]> m, S (S n)).
Proof.
  rewrite /rowTyped. intros [[Hl Ht]%andb_prop Hv]%andb_prop.
  destruct (labelPairsOf_typed o (S n) datapoint Hl) as (pairs & Hpairs & Hperm).
  exists pairs. split; first done.
  rewrite /groupRow buildKey_typed //= /sampleOf.
  destruct (index datapoint "timestamp") as [|t| | |]; try done.
  destruct (index datapoint "value") as [| |v| |]; try done.
  destruct (m !! seriesKey datapoint) as [ts|]; simpl; first done.
  by rewrite Hpairs.
Qed.

Lemma groupRow_untyped o (m : gmap string TimeSeries) n (datapoint : Row) :
  rowTyped datapoint = false →
  groupRow o (m, n) datapoint = Panics InterfaceConversion.
Proof.
  rewrite /rowTyped /groupRow. intros Hty.
  destruct (labelsTyped datapoint) eqn:Hl; last by rewrite buildKey_untyped.
  rewrite buildKey_typed //=.
  destruct (labelPairsOf_typed o (S n) datapoint Hl) as (pairs & -> & _).
  simpl in Hty.
  destruct (m !! seriesKey datapoint); simpl;
    destruct (index datapoint "timestamp"); try done;
    destruct (index datapoint "value"); done.
Qed.

Lemma rowsOf_snoc key dataPoints (datapoint : Row) :
  rowsOf key (dataPoints ++ [datapoint]) =
    rowsOf key dataPoints ++ (if bool_decide (seriesKey datapoint = key) then [datapoint] else []).
Proof.
  rewrite /rowsOf filter_app filter_cons filter_nil. by case_decide; case_bool_decide.
Qed.

Lemma sampleCount_perm l1 l2 : l1 ≡ₚ l2 → sampleCount l1 = sampleCount l2.
Proof. intros H. by rewrite /sampleCount H. Qed.

Lemma sampleCount_insert (m : gmap string TimeSeries) key ts sample :
  sampleCount (map_to_list
    (<[key := {| Labels := from_option Labels ts (m !! key);
                 Samples := from_option Samples [] (m !! key) ++ [sample] |}]> m)).*2
  = S (sampleCount (map_to_list m).*2).
Proof.
  destruct (m !! key) as [old|] eqn:Hkey; simpl.
  - rewrite -insert_delete_eq.
    rewrite (sampleCount_perm _ _ (fmap_Permutation snd _ _
               (map_to_list_insert (delete key m) key _ (lookup_delete_eq m key)))).
    rewrite -(sampleCount_perm _ (map_to_list m).*2 (fmap_Permutation snd _ _
               (map_to_list_delete m key old Hkey))).
    rewrite /sampleCount /= length_app /=. lia.
  - rewrite (sampleCount_perm _ _ (fmap_Permutation snd _ _
               (map_to_list_insert m key _ Hkey))).
    by rewrite /sampleCount /=.
Qed.

(** ** The grouping loop *)

Lemma groupRows_grouped o dataPoints :
  forallb rowTyped dataPoints = true →
  ∃ m n, for_range (groupRow o) (∅, O) dataPoints = Done (m, n)
         ∧ grouped dataPoints m
         ∧ sampleCount (map_to_list m).*2 = length dataPoints.
Proof.
  induction dataPoints as [|datapoint dataPoints IH] using rev_ind; intros Hty.
  - exists ∅, O. split_and!; [done| |done].
    intros key. by rewrite /rowsOf filter_nil lookup_empty.
  - rewrite forallb_app /= andb_true_r in Hty. apply andb_prop in Hty as [Hl Hr].
    destruct (IH Hl) as (m & n & Hrun & Hgr & Hcount).
    destruct (groupRow_typed o m n datapoint Hr) as (pairs & Hpairs & Hstep).
    eexists _, _. rewrite for_range_snoc Hrun /mbind /result_bind Hstep.
    split_and!; first done.
    + intros key. rewrite rowsOf_snoc. specialize (Hgr key). case_bool_decide as Hkey.
      * subst key. rewrite lookup_insert_eq.
        destruct (rowsOf (seriesKey datapoint) dataPoints) as [|first rest] eqn:Hrows.
        -- rewrite Hgr /=. eexists; split_and!; done.
        -- destruct Hgr as (ts & Hts & Hlab & Hsam). rewrite Hts /=.
           eexists; split_and!; [done|done|].
           by rewrite [Samples _]/= Hsam -fmap_snoc.
      * rewrite lookup_insert_ne // app_nil_r. done.
    + rewrite sampleCount_insert Hcount length_app /=. lia.
Qed.

Lemma groupRows_untyped o dataPoints st :
  forallb rowTyped dataPoints = false →
  for_range (groupRow o) st dataPoints = Panics InterfaceConversion.
Proof.
  revert st. induction dataPoints as [|datapoint dataPoints IH]; intros [m n] Hty; first done.
  simpl in Hty. rewrite for_range_cons. destruct (rowTyped datapoint) eqn:Hrow.
  - destruct (groupRow_typed o m n datapoint Hrow) as (pairs & _ & ->). by apply IH.
  - by rewrite groupRow_untyped.
Qed.

(** ** What [responseToTimeseries] returns *)

Lemma responseToTimeseries_grouped o dataPoints :
  forallb rowTyped dataPoints = true →
  ∃ m series,
    responseToTimeseries o dataPoints = Done series
    ∧ series ≡ₚ (map_to_list m).*2
    ∧ grouped dataPoints m
    ∧ sampleCount series = length dataPoints.
Proof.
  intros Hty. destruct (groupRows_grouped o dataPoints Hty) as (m & n & Hrun & Hgr & Hcount).
  exists m. eexists. rewrite /responseToTimeseries Hrun /=. split_and!; [done| |done|].
  - by rewrite range_order_perm.
  - rewrite -Hcount. apply sampleCount_perm. by rewrite range_order_perm.
Qed.

Lemma responseToTimeseries_untyped o dataPoints :
  forallb rowTyped dataPoints = false →
  responseToTimeseries o dataPoints = Panics InterfaceConversion.
Proof. intros Hty. by rewrite /responseToTimeseries groupRows_untyped. Qed.

Lemma elem_of_series (m : gmap string TimeSeries) series ts :
  series ≡ₚ (map_to_list m).*2 → ts ∈ series ↔ ∃ key, m !! key = Some ts.
Proof.
  intros ->. rewrite list_elem_of_fmap. split.
  - intros ([key ts'] & -> & Hin%elem_of_map_to_list). by exists key.
  - intros (key & Hkey). exists (key, ts). by rewrite elem_of_map_to_list.
Qed.

Lemma labelPairs_values (datapoint : Row) :
  Label_Value <$> labelPairs datapoint = labelValues datapoint.
Proof. rewrite /labelPairs /labelValues -list_fmap_compose. done. Qed.

Lemma grouped_lookup dataPoints (m : gmap string TimeSeries) key ts :
  grouped dataPoints m → m !! key = Some ts →
  ∃ first rest,
    rowsOf key dataPoints = first :: rest
    ∧ Labels ts ≡ₚ labelPairs first
    ∧ Samples ts = sampleOf <$> rowsOf key dataPoints
    ∧ keyOfSeries ts = key.
Proof.
  intros Hgr Hkey. specialize (Hgr key).
  destruct (rowsOf key dataPoints) as [|first rest] eqn:Hrows; first congruence.
  destruct Hgr as (ts' & Hts' & Hlab & Hsam). simplify_eq.
  exists first, rest. split_and!; try done.
  assert (first ∈ rowsOf key dataPoints) as Hin by (rewrite Hrows; left).
  apply list_elem_of_filter in Hin as [<- _].
  rewrite /keyOfSeries /seriesKey -labelPairs_values.
  f_equal. apply sort_Strings_perm. by rewrite Hlab.
Qed.

Lemma grouped_row dataPoints (m : gmap string TimeSeries) (datapoint : Row) :
  grouped dataPoints m → datapoint ∈ dataPoints →
  ∃ ts, m !! seriesKey datapoint = Some ts
        ∧ Samples ts = sampleOf <$> rowsOf (seriesKey datapoint) dataPoints.
Proof.
  intros Hgr Hin. specialize (Hgr (seriesKey datapoint)).
  assert (datapoint ∈ rowsOf (seriesKey datapoint) dataPoints) as Hrow
    by by apply list_elem_of_filter.
  destruct (rowsOf (seriesKey datapoint) dataPoints) as [|first rest]; first by inversion Hrow.
  destruct Hgr as (ts & Hts & _ & Hsam). by exists ts.
Qed.

Lemma series_unique_key (m : gmap string TimeSeries) dataPoints ts1 ts2 :
  grouped dataPoints m →
  (∃ key, m !! key = Some ts1) → (∃ key, m !! key = Some ts2) →
  keyOfSeries ts1 = keyOfSeries ts2 → ts1 = ts2.
Proof.
  intros Hgr [k1 H1] [k2 H2] Heq.
  destruct (grouped_lookup _ _ _ _ Hgr H1) as (_ & _ & _ & _ & _ & Hk1).
  destruct (grouped_lookup _ _ _ _ Hgr H2) as (_ & _ & _ & _ & _ & Hk2).
  congruence.
Qed.

Lemma series_keys (m : gmap string TimeSeries) dataPoints series key :
  grouped dataPoints m → series ≡ₚ (map_to_list m).*2 →
  key ∈ keyOfSeries <$> series ↔ key ∈ seriesKey <$> dataPoints.
Proof.
  intros Hgr Hperm. rewrite !list_elem_of_fmap. split.
  - intros (ts & -> & [k Hk]%(elem_of_series m)); last done.
    destruct (grouped_lookup _ _ _ _ Hgr Hk) as (first & rest & Hrows & _ & _ & <-).
    assert (first ∈ rowsOf (keyOfSeries ts) dataPoints) as Hin by (rewrite Hrows; left).
    apply list_elem_of_filter in Hin as [Hkey Hin]. by exists first.
  - intros (datapoint & -> & Hin).
    destruct (grouped_row _ _ _ Hgr Hin) as (ts & Hts & _).
    destruct (grouped_lookup _ _ _ _ Hgr Hts) as (_ & _ & _ & _ & _ & Hkey).
    exists ts. split; first done. apply (elem_of_series m); first done. by eexists.
Qed.

Lemma scenario_typed : forallb rowTyped scenario = true.
Proof. vm_compute. reflexivity. Qed.

Lemma labelsTyped_spec (datapoint : Row) :
  labelsTyped datapoint = true ↔
  ∀ k v, datapoint !! k = Some v → is_label k = true → is_string v = true.
Proof.
  rewrite /labelsTyped forallb_forall. split.
  - intros Hall k v Hkv Hk. apply (Hall (k, v)).
    apply list_elem_of_In, list_elem_of_filter. split; first by rewrite /= Hk.
    by apply elem_of_map_to_list.
  - intros Hall [k v] [Hk Hkv%elem_of_map_to_list]%list_elem_of_In%list_elem_of_filter.
    apply (Hall k v Hkv). simpl in Hk. by destruct (is_label k).
Qed.

Lemma labelPairs_spec (datapoint : Row) name value :
  labelsTyped datapoint = true →
  {| Label_Name := name; Label_Value := value |} ∈ labelPairs datapoint
  ↔ datapoint !! name = Some (IString value) ∧ name ≠ "value" ∧ name ≠ "timestamp".
Proof.
  intros Hty. rewrite /labelPairs list_elem_of_fmap. split.
  - intros ([k v] & [= -> ->] & [Hk Hkv%elem_of_map_to_list]%list_elem_of_filter).
    simpl in Hk. destruct (is_label k) eqn:Hlabel; last done.
    pose proof (proj1 (labelsTyped_spec datapoint) Hty k v Hkv Hlabel) as Hs.
    destruct v; try discriminate Hs. split; first done.
    rewrite /is_label in Hlabel. apply andb_prop in Hlabel as [H1 H2].
    split; intros ->; done.
  - intros (Hkv & Hv & Ht). exists (name, IString value). split; first done.
    apply list_elem_of_filter. split; last by apply elem_of_map_to_list.
    rewrite /= /is_label. by rewrite !bool_decide_eq_false_2.
Qed.

Lemma rowTyped_labels dataPoints (datapoint : Row) :
  forallb rowTyped dataPoints = true → datapoint ∈ dataPoints →
  labelsTyped datapoint = true.
Proof.
  intros Hty Hin. rewrite forallb_forall in Hty. specialize (Hty datapoint).
  rewrite -list_elem_of_In in Hty. specialize (Hty Hin).
  rewrite /rowTyped in Hty. by destruct (labelsTyped datapoint).
Qed.

(** * The claims about [responseToTimeseries] *)

(** C10. For rows that satisfy the Row precondition, the samples of all
    returned series together are as many as the input rows: the series of a
    Series Key holds one sample for each row with that key, in their order,
    and every row finds the series of its key in the result. *)
Theorem responseToTimeseries_one_sample_per_row o dataPoints :
  forallb rowTyped dataPoints = true →
  ∃ series,
    responseToTimeseries o dataPoints = Done series
    ∧ sampleCount series = length dataPoints
    ∧ ∀ datapoint, datapoint ∈ dataPoints →
        ∃ ts, ts ∈ series
              ∧ keyOfSeries ts = seriesKey datapoint
              ∧ Samples ts = sampleOf <$> rowsOf (seriesKey datapoint) dataPoints.
Proof.
  intros Hty.
  destruct (responseToTimeseries_grouped o dataPoints Hty)
    as (m & series & Hrun & Hperm & Hgr & Hcount).
  exists series. split_and!; [done|done|].
  intros datapoint Hin.
  destruct (grouped_row _ _ _ Hgr Hin) as (ts & Hts & Hsam).
  destruct (grouped_lookup _ _ _ _ Hgr Hts) as (_ & _ & _ & _ & _ & Hkey).
  exists ts. split_and!; [|done|done].
  apply (elem_of_series m); first done. by eexists.
Qed.

Lemma responseToTimeseries_one_sample_per_row_witness :
  forallb rowTyped scenario = true
  ∧ ∃ series,
      responseToTimeseries canonical scenario = Done series
      ∧ sampleCount series = length scenario
      ∧ ∀ datapoint, datapoint ∈ scenario →
          ∃ ts, ts ∈ series
                ∧ keyOfSeries ts = seriesKey datapoint
                ∧ Samples ts = sampleOf <$> rowsOf (seriesKey datapoint) scenario.
Proof.
  split; first exact scenario_typed.
  apply (responseToTimeseries_one_sample_per_row canonical scenario). exact scenario_typed.
Defined.

Lemma rowsOf_scenario key :
  rowsOf key scenario =
    if bool_decide (key = "a") then
      [ point "host" "a" 1.0%float "2024-01-01T00:00:00Z";
        point "host" "a" 2.0%float "2024-01-01T00:01:00Z" ]
    else if bool_decide (key = "b") then [ point "host" "b" 3.0%float "2024-01-01T00:00:00Z" ]
    else [].
Proof.
  assert (∀ v t, seriesKey (point "host" "a" v t) = "a") as Ha by (intros; by vm_compute).
  assert (∀ v t, seriesKey (point "host" "b" v t) = "b") as Hb by (intros; by vm_compute).
  rewrite /rowsOf /scenario !filter_cons filter_nil !Ha !Hb.
  repeat case_decide; repeat case_bool_decide; congruence.
Qed.

Lemma scenario_map :
  (map_to_list (<["a" := seriesA]> (<["b" := seriesB]> (∅ : gmap string TimeSeries)))).*2
  = [seriesA; seriesB].
Proof. vm_compute. reflexivity. Qed.

Lemma scenario_rows_a :
  labelPairs (point "host" "a" 1.0%float "2024-01-01T00:00:00Z") = Labels seriesA
  ∧ sampleOf <$> [ point "host" "a" 1.0%float "2024-01-01T00:00:00Z";
                   point "host" "a" 2.0%float "2024-01-01T00:01:00Z" ] = Samples seriesA.
Proof. split; vm_compute; reflexivity. Qed.

Lemma scenario_rows_b :
  labelPairs (point "host" "b" 3.0%float "2024-01-01T00:00:00Z") = Labels seriesB
  ∧ sampleOf <$> [ point "host" "b" 3.0%float "2024-01-01T00:00:00Z" ] = Samples seriesB.
Proof. split; vm_compute; reflexivity. Qed.

(** C5. On the three rows of the scenario [responseToTimeseries] returns two
    series, in some order: the series of host [a] with the samples
    (1704067200000, 1.0) and (1704067260000, 2.0), and the series of host [b]
    with the sample (1704067200000, 3.0). *)
Theorem responseToTimeseries_scenario o :
  ∃ series, responseToTimeseries o scenario = Done series ∧ series ≡ₚ [seriesA; seriesB].
Proof.
  destruct (responseToTimeseries_grouped o scenario scenario_typed)
    as (m & series & Hrun & Hperm & Hgr & _).
  exists series. split; first exact Hrun.
  assert (m = <["a" := seriesA]> (<["b" := seriesB]> ∅)) as Hm.
  { apply map_eq. intros key. specialize (Hgr key). rewrite rowsOf_scenario in Hgr.
    destruct scenario_rows_a as [Hla Hsa]. destruct scenario_rows_b as [Hlb Hsb].
    case_bool_decide as Ha; [|case_bool_decide as Hb].
    - subst key. destruct Hgr as ([labels samples] & -> & Hlab & Hsam).
      rewrite Hla in Hlab. rewrite Hsa in Hsam.
      apply Permutation_singleton_r in Hlab.
      rewrite lookup_insert_eq. cbn [Labels Samples] in Hlab, Hsam.
      rewrite Hlab Hsam. reflexivity.
    - subst key. destruct Hgr as ([labels samples] & -> & Hlab & Hsam).
      rewrite Hlb in Hlab. rewrite Hsb in Hsam.
      apply Permutation_singleton_r in Hlab.
      rewrite lookup_insert_ne; first congruence. rewrite lookup_insert_eq.
      cbn [Labels Samples] in Hlab, Hsam. rewrite Hlab Hsam. reflexivity.
    - rewrite Hgr. rewrite lookup_insert_ne; first congruence.
      rewrite lookup_insert_ne; first congruence. by rewrite lookup_empty. }
  rewrite Hperm Hm scenario_map. reflexivity.
Qed.

(** The claim of C7 fails as it stands: the rows [twice] and [once] carry
    the same set of label values under different names, but the first one
    carries the value twice. Their keys are [x,x] and [x], and each row gets
    a series of its own. *)
Lemma responseToTimeseries_same_set_counterexample :
  list_to_set (labelValues twice) =@{gset string} list_to_set (labelValues once)
  ∧ labelNames twice ≠ labelNames once
  ∧ ∃ ts1 ts2,
      responseToTimeseries canonical [twice; once] = Done [ts1; ts2]
      ∧ Samples ts1 = [sampleOf twice]
      ∧ Samples ts2 = [sampleOf once].
Proof.
  split_and!.
  - vm_compute. reflexivity.
  - vm_compute. discriminate.
  - eexists _, _. split_and!; vm_compute; reflexivity.
Qed.

(** C7, amended. Two rows of a typed row sequence that carry the same label
    values, counted with multiplicity (whatever the names of their labels),
    end up in one series: the result holds exactly one series with their
    Series Key, and its samples are those of all rows with that key, both
    rows among them. *)
Theorem responseToTimeseries_same_values_collapse o dataPoints (r1 r2 : Row) :
  forallb rowTyped dataPoints = true →
  r1 ∈ dataPoints → r2 ∈ dataPoints →
  labelValues r1 ≡ₚ labelValues r2 →
  ∃ series ts,
    responseToTimeseries o dataPoints = Done series
    ∧ ts ∈ series
    ∧ Samples ts = sampleOf <$> rowsOf (seriesKey r1) dataPoints
    ∧ r1 ∈ rowsOf (seriesKey r1) dataPoints
    ∧ r2 ∈ rowsOf (seriesKey r1) dataPoints
    ∧ ∀ ts', ts' ∈ series → keyOfSeries ts' = seriesKey r1 → ts' = ts.
Proof.
  intros Hty Hin1 Hin2 Hvalues.
  destruct (responseToTimeseries_grouped o dataPoints Hty)
    as (m & series & Hrun & Hperm & Hgr & _).
  destruct (grouped_row _ _ _ Hgr Hin1) as (ts & Hts & Hsam).
  destruct (grouped_lookup _ _ _ _ Hgr Hts) as (_ & _ & _ & _ & _ & Hkey).
  assert (seriesKey r2 = seriesKey r1) as Hkeys.
  { rewrite /seriesKey. f_equal. by apply sort_Strings_perm. }
  exists series, ts. split_and!; try done.
  - apply (elem_of_series m); first done. by eexists.
  - by apply list_elem_of_filter.
  - by apply list_elem_of_filter.
  - intros ts' Hin' Hkey'. apply (series_unique_key m dataPoints); try done.
    + by apply (elem_of_series m series).
    + by eexists.
    + congruence.
Qed.

Lemma responseToTimeseries_same_values_collapse_witness :
  let r1 := point "host" "x" 1.0%float "2024-01-01T00:00:00Z" in
  let r2 := point "node" "x" 2.0%float "2024-01-01T00:01:00Z" in
  labelNames r1 ≠ labelNames r2
  ∧ ∃ series ts,
      responseToTimeseries canonical renamed = Done series
      ∧ ts ∈ series
      ∧ Samples ts = sampleOf <$> rowsOf (seriesKey r1) renamed
      ∧ r1 ∈ rowsOf (seriesKey r1) renamed
      ∧ r2 ∈ rowsOf (seriesKey r1) renamed
      ∧ ∀ ts', ts' ∈ series → keyOfSeries ts' = seriesKey r1 → ts' = ts.
Proof.
  intros r1 r2. split.
  - vm_compute. discriminate.
  - apply (responseToTimeseries_same_values_collapse canonical renamed r1 r2).
    + vm_compute. reflexivity.
    + apply list_elem_of_here.
    + apply list_elem_of_further, list_elem_of_here.
    + vm_compute. reflexivity.
Defined.

Lemma rowsOf_middle key before (datapoint : Row) after :
  seriesKey datapoint = key →
  rowsOf key (before ++ datapoint :: after)
  = rowsOf key before ++ datapoint :: rowsOf key after.
Proof. intros Hkey. by rewrite /rowsOf filter_app filter_cons_True. Qed.

Lemma zeroTimeMillis_value : zeroTimeMillis = -6795364578871.
Proof. vm_compute. reflexivity. Qed.

Lemma timeInMillis_unparsable timestamp :
  time.Parse_RFC3339 timestamp = None → timeInMillis timestamp = -6795364578871.
Proof. intros Hparse. rewrite /timeInMillis Hparse. vm_compute. reflexivity. Qed.

(** C8. A row whose timestamp does not parse as RFC 3339 still gives a
    sample: it carries the milliseconds of the zero time ([Time{}], which
    come out as -6795364578871) and the value of the row, it sits in the
    series of the row's key between the samples of the rows before and
    after it, and the rows after it are processed as usual. *)
Theorem responseToTimeseries_unparsable_timestamp o before (datapoint : Row) after timestamp :
  forallb rowTyped (before ++ datapoint :: after) = true →
  index datapoint "timestamp" = IString timestamp →
  time.Parse_RFC3339 timestamp = None →
  ∃ series ts,
    responseToTimeseries o (before ++ datapoint :: after) = Done series
    ∧ ts ∈ series
    ∧ Samples ts =
        (sampleOf <$> rowsOf (seriesKey datapoint) before)
        ++ {| Sample_Timestamp := -6795364578871;
              Sample_Value := float64Of (index datapoint "value") |}
        :: (sampleOf <$> rowsOf (seriesKey datapoint) after)
    ∧ sampleCount series = length (before ++ datapoint :: after).
Proof.
  intros Hty Hts Hparse.
  destruct (responseToTimeseries_grouped o _ Hty)
    as (m & series & Hrun & Hperm & Hgr & Hcount).
  assert (datapoint ∈ before ++ datapoint :: after) as Hin.
  { apply elem_of_app. right. left. }
  destruct (grouped_row _ _ _ Hgr Hin) as (ts & Hlookup & Hsam).
  exists series, ts. split_and!; [exact Hrun| |  |exact Hcount].
  - apply (elem_of_series m); first exact Hperm. by eexists.
  - rewrite Hsam rowsOf_middle; first reflexivity.
    rewrite fmap_app fmap_cons. f_equal. f_equal.
    rewrite /sampleOf Hts. f_equal. by apply timeInMillis_unparsable.
Qed.

Lemma responseToTimeseries_unparsable_timestamp_witness :
  time.Parse_RFC3339 "yesterday" = None
  ∧ ∃ series ts,
      responseToTimeseries canonical ([early] ++ garbled :: [late]) = Done series
      ∧ ts ∈ series
      ∧ Samples ts =
          (sampleOf <$> rowsOf (seriesKey garbled) [early])
          ++ {| Sample_Timestamp := -6795364578871;
                Sample_Value := float64Of (index garbled "value") |}
          :: (sampleOf <$> rowsOf (seriesKey garbled) [late])
      ∧ sampleCount series = length ([early] ++ garbled :: [late]).
Proof.
  split; first (vm_compute; reflexivity).
  apply (responseToTimeseries_unparsable_timestamp canonical [early] garbled [late] "yesterday").
  - vm_compute. reflexivity.
  - vm_compute. reflexivity.
  - vm_compute. reflexivity.
Defined.

(** The claim of C6 fails as it stands: the two rows of [renamed] share the
    Series Key [x], and the series keeps the label pairs of whichever row
    comes first, so swapping the rows changes the label pairs of the series. *)
Lemma responseToTimeseries_permutation_counterexample :
  reverse renamed ≡ₚ renamed
  ∧ ∃ ts ts',
      responseToTimeseries canonical renamed = Done [ts]
      ∧ responseToTimeseries canonical (reverse renamed) = Done [ts']
      ∧ keyOfSeries ts = keyOfSeries ts'
      ∧ ¬ Labels ts ≡ₚ Labels ts'.
Proof.
  split; first apply reverse_Permutation.
  eexists _, _. split_and!; [by vm_compute|by vm_compute|by vm_compute|].
  simpl. intros Hperm%Permutation_singleton_r. discriminate Hperm.
Qed.

(** C6, amended. For a typed row sequence and any rearrangement of it, the
    returned series have the same set of Series Keys. In each result a
    series holds the samples of the rows with its key, in the order of that
    input, and its label pairs are the fields, other than [value] and
    [timestamp], of the first row with its key in that input. So when rows
    that share a Series Key carry the same label pairs, series with the
    same key have the same label pairs in both results. *)
Theorem responseToTimeseries_permutation o o' dataPoints dataPoints' :
  forallb rowTyped dataPoints = true →
  dataPoints' ≡ₚ dataPoints →
  ∃ series series',
    responseToTimeseries o dataPoints = Done series
    ∧ responseToTimeseries o' dataPoints' = Done series'
    ∧ list_to_set (keyOfSeries <$> series) =@{gset string} list_to_set (keyOfSeries <$> series')
    ∧ (∀ ts, ts ∈ series →
         Samples ts = sampleOf <$> rowsOf (keyOfSeries ts) dataPoints
         ∧ ∃ first rest,
             rowsOf (keyOfSeries ts) dataPoints = first :: rest
             ∧ ∀ name value,
                 {| Label_Name := name; Label_Value := value |} ∈ Labels ts
                 ↔ first !! name = Some (IString value)
                   ∧ name ≠ "value" ∧ name ≠ "timestamp")
    ∧ (∀ ts, ts ∈ series' →
         Samples ts = sampleOf <$> rowsOf (keyOfSeries ts) dataPoints'
         ∧ ∃ first rest,
             rowsOf (keyOfSeries ts) dataPoints' = first :: rest
             ∧ ∀ name value,
                 {| Label_Name := name; Label_Value := value |} ∈ Labels ts
                 ↔ first !! name = Some (IString value)
                   ∧ name ≠ "value" ∧ name ≠ "timestamp")
    ∧ ((∀ r1 r2 : Row, r1 ∈ dataPoints → r2 ∈ dataPoints →
          seriesKey r1 = seriesKey r2 → labelPairs r1 ≡ₚ labelPairs r2) →
       ∀ ts ts', ts ∈ series → ts' ∈ series' →
         keyOfSeries ts = keyOfSeries ts' → Labels ts ≡ₚ Labels ts').
Proof.
  intros Hty Hperm.
  assert (forallb rowTyped dataPoints' = true) as Hty'
    by by rewrite (forallb_perm _ _ _ Hperm).
  destruct (responseToTimeseries_grouped o dataPoints Hty)
    as (m & series & Hrun & Hser & Hgr & _).
  destruct (responseToTimeseries_grouped o' dataPoints' Hty')
    as (m' & series' & Hrun' & Hser' & Hgr' & _).
  assert (∀ rows (mm : gmap string TimeSeries) ss ts,
            grouped rows mm → ss ≡ₚ (map_to_list mm).*2 → ts ∈ ss →
            ∃ first rest, rowsOf (keyOfSeries ts) rows = first :: rest
                     ∧ first ∈ rows ∧ seriesKey first = keyOfSeries ts
                     ∧ Labels ts ≡ₚ labelPairs first
                     ∧ Samples ts = sampleOf <$> rowsOf (keyOfSeries ts) rows) as Hfirst.
  { intros rows mm ss ts Hg Hs [key Hkey]%(elem_of_series mm); last done.
    destruct (grouped_lookup _ _ _ _ Hg Hkey) as (first & rest & Hrows & Hlab & Hsam & <-).
    assert (first ∈ rowsOf (keyOfSeries ts) rows) as Hin by (rewrite Hrows; left).
    apply list_elem_of_filter in Hin as [Hk Hin]. by exists first, rest. }
  assert (∀ rows (mm : gmap string TimeSeries) ss ts,
            forallb rowTyped rows = true →
            grouped rows mm → ss ≡ₚ (map_to_list mm).*2 → ts ∈ ss →
            Samples ts = sampleOf <$> rowsOf (keyOfSeries ts) rows
            ∧ ∃ first rest,
                rowsOf (keyOfSeries ts) rows = first :: rest
                ∧ ∀ name value,
                    {| Label_Name := name; Label_Value := value |} ∈ Labels ts
                    ↔ first !! name = Some (IString value)
                      ∧ name ≠ "value" ∧ name ≠ "timestamp") as Hshape.
  { intros rows mm ss ts Ht Hg Hs Hin.
    destruct (Hfirst _ _ _ _ Hg Hs Hin) as (first & rest & Hrows & Hinr & _ & Hlab & Hsam).
    split; first exact Hsam. exists first, rest. split; first exact Hrows.
    intros name value. rewrite Hlab. apply labelPairs_spec.
    by apply (rowTyped_labels rows). }
  exists series, series'. split_and!; try done.
  - apply set_eq. intros key. rewrite !elem_of_list_to_set.
    rewrite (series_keys m dataPoints) // (series_keys m' dataPoints') //.
    by rewrite Hperm.
  - intros ts Hin. by apply (Hshape dataPoints m series).
  - intros ts Hin. by apply (Hshape dataPoints' m' series').
  - intros Hagree ts ts' Hin Hin' Hkey.
    destruct (Hfirst _ _ _ _ Hgr Hser Hin) as (r1 & _ & _ & Hr1 & Hk1 & Hl1 & _).
    destruct (Hfirst _ _ _ _ Hgr' Hser' Hin') as (r2 & _ & _ & Hr2 & Hk2 & Hl2 & _).
    rewrite Hl1 Hl2. apply Hagree; [done| |congruence]. by rewrite -Hperm.
Qed.

Lemma scenario_labels_agree (r1 r2 : Row) :
  r1 ∈ scenario → r2 ∈ scenario →
  seriesKey r1 = seriesKey r2 → labelPairs r1 ≡ₚ labelPairs r2.
Proof.
  rewrite /scenario !elem_of_cons !elem_of_nil.
  intros [->|[->|[->|[]]]] [->|[->|[->|[]]]]; vm_compute; by try discriminate.
Qed.

Lemma responseToTimeseries_permutation_witness :
  reverse scenario ≡ₚ scenario
  ∧ ∃ series series',
      responseToTimeseries canonical scenario = Done series
      ∧ responseToTimeseries canonical (reverse scenario) = Done series'
      ∧ list_to_set (keyOfSeries <$> series) =@{gset string} list_to_set (keyOfSeries <$> series')
      ∧ (∀ ts, ts ∈ series →
           Samples ts = sampleOf <$> rowsOf (keyOfSeries ts) scenario
           ∧ ∃ first rest,
               rowsOf (keyOfSeries ts) scenario = first :: rest
               ∧ ∀ name value,
                   {| Label_Name := name; Label_Value := value |} ∈ Labels ts
                   ↔ first !! name = Some (IString value)
                     ∧ name ≠ "value" ∧ name ≠ "timestamp")
      ∧ (∀ ts, ts ∈ series' →
           Samples ts = sampleOf <$> rowsOf (keyOfSeries ts) (reverse scenario)
           ∧ ∃ first rest,
               rowsOf (keyOfSeries ts) (reverse scenario) = first :: rest
               ∧ ∀ name value,
                   {| Label_Name := name; Label_Value := value |} ∈ Labels ts
                   ↔ first !! name = Some (IString value)
                     ∧ name ≠ "value" ∧ name ≠ "timestamp")
      ∧ (∀ ts ts', ts ∈ series → ts' ∈ series' →
           keyOfSeries ts = keyOfSeries ts' → Labels ts ≡ₚ Labels ts').
Proof.
  split; first apply reverse_Permutation.
  destruct (responseToTimeseries_permutation canonical canonical scenario (reverse scenario)
              scenario_typed (reverse_Permutation scenario))
    as (series & series' & Hrun & Hrun' & Hkeys & Hshape & Hshape' & Hlabels).
  exists series, series'.
  split_and!; [exact Hrun|exact Hrun'|exact Hkeys|exact Hshape|exact Hshape'|].
  exact (Hlabels scenario_labels_agree).
Defined.

(** ** Joining comma-free strings *)

Lemma commaFree_no_separator x y rest :
  commaFree x = true → x ≠ (y +:+ "," +:+ rest).
Proof.
  revert x. induction y as [|c y IH]; intros x Hx Heq.
  - subst x. cbn in Hx. discriminate Hx.
  - destruct x as [|c' x]; first discriminate Heq.
    cbn in Heq. injection Heq as _ Heq.
    cbn in Hx. apply andb_prop in Hx as [_ Hx]. by apply (IH x).
Qed.

Lemma comma_split x y a b :
  commaFree x = true → commaFree y = true →
  (x +:+ "," +:+ a) = (y +:+ "," +:+ b) → x = y ∧ a = b.
Proof.
  revert y. induction x as [|c x IH]; intros [|c' y] Hx Hy Heq; cbn in Hx, Hy, Heq.
  - injection Heq as Heq. done.
  - injection Heq as Hc _. subst c'. cbn in Hy. discriminate Hy.
  - injection Heq as Hc _. subst c. cbn in Hx. discriminate Hx.
  - injection Heq as Hc Heq. subst c'.
    apply andb_prop in Hx as [_ Hx]. apply andb_prop in Hy as [_ Hy].
    destruct (IH y Hx Hy Heq) as [Hxy Hab]. by subst.
Qed.

Lemma strings_Join_inj l1 l2 :
  forallb commaFree l1 = true → forallb commaFree l2 = true →
  (l1 = [] ↔ l2 = []) →
  strings_Join l1 "," = strings_Join l2 "," → l1 = l2.
Proof.
  revert l2. induction l1 as [|x l1 IH]; intros l2 H1 H2 Hnil Heq.
  - symmetry. by apply Hnil.
  - destruct l2 as [|y l2]; first by apply Hnil.
    simpl in H1, H2.
    apply andb_prop in H1 as [Hx H1]. apply andb_prop in H2 as [Hy H2].
    destruct l1 as [|x' l1], l2 as [|y' l2].
    + simpl in Heq. by subst.
    + by apply commaFree_no_separator in Heq.
    + symmetry in Heq. by apply commaFree_no_separator in Heq.
    + change ((x +:+ "," +:+ strings_Join (x' :: l1) ",")
              = (y +:+ "," +:+ strings_Join (y' :: l2) ",")) in Heq.
      apply comma_split in Heq as [-> Heq]; [|done..].
      f_equal. apply IH; [done|done|done|done].
Qed.

(** * The claims about [buildKey] *)

(** The claim of C2 fails as it stands: a row with the one label value
    [a,b] and a row with the two label values [a] and [b] get the same key. *)
Lemma buildKey_counterexample :
  let r1 : Row := <["host" := IString "a,b"]> ∅ in
  let r2 : Row := <["host" := IString "a"]> (<["zone" := IString "b"]> ∅) in
  buildKey canonical 0 r1 = buildKey canonical 0 r2
  ∧ buildKey canonical 0 r1 = Done "a,b"
  ∧ ¬ labelValues r1 ≡ₚ labelValues r2.
Proof.
  split_and!; [by vm_compute|by vm_compute|].
  intros Hperm%Permutation_length. by vm_compute in Hperm.
Qed.

(** C2, amended. For rows whose label values are strings, [buildKey] gives
    the same key whenever the rows carry the same label values (counted
    with multiplicity), whatever the field order and the label names. The
    converse holds when no label value contains a comma and the rows do not
    differ in having labels at all: then equal keys mean the same label
    values. *)
Theorem buildKey_same_key o1 n1 o2 n2 (r1 r2 : Row) :
  labelsTyped r1 = true → labelsTyped r2 = true →
  (labelValues r1 ≡ₚ labelValues r2 → buildKey o1 n1 r1 = buildKey o2 n2 r2)
  ∧ (forallb commaFree (labelValues r1) = true →
     forallb commaFree (labelValues r2) = true →
     (labelValues r1 = [] ↔ labelValues r2 = []) →
     buildKey o1 n1 r1 = buildKey o2 n2 r2 → labelValues r1 ≡ₚ labelValues r2).
Proof.
  intros Ht1 Ht2. rewrite !buildKey_typed //. split.
  - intros Hperm. rewrite /seriesKey. do 2 f_equal. by apply sort_Strings_perm.
  - intros Hc1 Hc2 Hnil [= Heq]. apply sort_Strings_inj.
    pose proof (merge_sort_Permutation String.le (labelValues r1)) as Hp1.
    pose proof (merge_sort_Permutation String.le (labelValues r2)) as Hp2.
    apply strings_Join_inj; try done.
    + by rewrite (forallb_perm _ _ _ Hp1).
    + by rewrite (forallb_perm _ _ _ Hp2).
    + rewrite /sort_Strings. split; intros Hs.
      * apply Permutation_nil_r. rewrite Hp2. apply Permutation_nil_r, Hnil.
        apply Permutation_nil_r. by rewrite -Hp1 Hs.
      * apply Permutation_nil_r. rewrite Hp1. apply Permutation_nil_r, Hnil.
        apply Permutation_nil_r. by rewrite -Hp2 Hs.
Qed.

Lemma buildKey_same_key_witness :
  let r1 : Row := point "host" "x" 1.0%float "2024-01-01T00:00:00Z" in
  let r2 : Row := point "node" "x" 2.0%float "2024-01-01T00:01:00Z" in
  buildKey canonical 0 r1 = buildKey canonical 1 r2
  ∧ (buildKey canonical 0 r1 = buildKey canonical 1 r2 → labelValues r1 ≡ₚ labelValues r2).
Proof.
  intros r1 r2.
  destruct (buildKey_same_key canonical 0 canonical 1 r1 r2) as [Hif Honly].
  - vm_compute. reflexivity.
  - vm_compute. reflexivity.
  - split.
    + apply Hif. vm_compute. reflexivity.
    + apply Honly.
      * vm_compute. reflexivity.
      * vm_compute. reflexivity.
      * vm_compute. split; discriminate.
Defined.

(** * The claims about [Handle] *)

(** Runs the steps of the handler that do not depend on a collaborator. *)
Ltac run_handler :=
  cbv [http_Error Write WriteHeader Header_Set modify_w log lift Read
       mbind M_bind mret M_ret notNil Error negb fresh
       w reads logged header status written].

(** C1. A request that decodes to a Read Request with a number of queries
    other than one is answered with status 400 and the line "Can only
    handle one query.", and the store client's [Read] is not called. *)
Theorem Handle_rejects_query_count env r compressed reqBuf req :
  Body r = (compressed, None) →
  snappy_Decode env compressed = (reqBuf, None) →
  proto_Unmarshal env reqBuf = (req, None) →
  length (Queries req) ≠ 1%nat →
  ∃ σ, Handle env r fresh = (Done tt, σ)
       ∧ status (w σ) = Some StatusBadRequest
       ∧ written (w σ) = ["Can only handle one query." +:+ newline]
       ∧ reads σ = [].
Proof.
  intros Hbody Hdecode Hunmarshal Hcount.
  rewrite /Handle Hbody Hdecode Hunmarshal.
  rewrite bool_decide_eq_false_2; first exact Hcount.
  run_handler. eexists. split; first reflexivity.
  split_and!; reflexivity.
Qed.

Lemma Handle_rejects_query_count_witness :
  length (Queries twoQueries) ≠ 1%nat
  ∧ ∃ σ, Handle (served twoQueries ([], None)) (post "request") fresh = (Done tt, σ)
         ∧ status (w σ) = Some StatusBadRequest
         ∧ written (w σ) = ["Can only handle one query." +:+ newline]
         ∧ reads σ = [].
Proof.
  split; first (vm_compute; discriminate).
  apply (Handle_rejects_query_count (served twoQueries ([], None)) (post "request")
           "request" "request" twoQueries).
  - reflexivity.
  - reflexivity.
  - reflexivity.
  - vm_compute. discriminate.
Defined.

(** C9. When the store client's [Read] returns an error for a request with
    one query, the reply is status 500 with the error text on a line, sent
    as plain text: nothing else is written, and the headers of a protocol
    message (protobuf content type, snappy encoding) are not set. *)
Theorem Handle_store_error env r compressed reqBuf req rows msg :
  Body r = (compressed, None) →
  snappy_Decode env compressed = (reqBuf, None) →
  proto_Unmarshal env reqBuf = (req, None) →
  length (Queries req) = 1%nat →
  reader_Read env req = (rows, Some msg) →
  ∃ σ, Handle env r fresh = (Done tt, σ)
       ∧ status (w σ) = Some StatusInternalServerError
       ∧ written (w σ) = [msg +:+ newline]
       ∧ header (w σ) !! "Content-Type" = Some "text/plain; charset=utf-8"
       ∧ header (w σ) !! "Content-Encoding" = None
       ∧ reads σ = [req].
Proof.
  intros Hbody Hdecode Hunmarshal Hcount Hread.
  rewrite /Handle Hbody Hdecode Hunmarshal.
  rewrite bool_decide_eq_true_2; first exact Hcount.
  run_handler. rewrite Hread. eexists. split; first reflexivity.
  cbn [w header status written reads].
  split_and!; [reflexivity|reflexivity| | |reflexivity].
  - rewrite lookup_insert_ne; first discriminate. by rewrite lookup_insert_eq.
  - rewrite lookup_insert_ne; first discriminate.
    rewrite lookup_insert_ne; first discriminate. by rewrite lookup_empty.
Qed.

Lemma Handle_store_error_witness :
  ∃ σ, Handle (served oneQuery ([], Some "no living connections")) (post "request") fresh
         = (Done tt, σ)
       ∧ status (w σ) = Some StatusInternalServerError
       ∧ written (w σ) = ["no living connections" +:+ newline]
       ∧ header (w σ) !! "Content-Type" = Some "text/plain; charset=utf-8"
       ∧ header (w σ) !! "Content-Encoding" = None
       ∧ reads σ = [oneQuery].
Proof.
  apply (Handle_store_error (served oneQuery ([], Some "no living connections"))
           (post "request") "request" "request" oneQuery [] "no living connections");
    reflexivity.
Defined.

(** C3, as the code behaves. When the body decompresses and the bytes fail
    to deserialize, the handler asks the error of the decompression step,
    which is nil, for its text: the call panics before any reply is
    written. The reply the claim describes (status 400 with the text of the
    deserialization error) is never sent. *)
Theorem Handle_unmarshal_error_panics env r compressed reqBuf req msg :
  Body r = (compressed, None) →
  snappy_Decode env compressed = (reqBuf, None) →
  proto_Unmarshal env reqBuf = (req, Some msg) →
  ∃ σ, Handle env r fresh = (Panics NilDereference, σ)
       ∧ status (w σ) = None
       ∧ written (w σ) = []
       ∧ reads σ = [].
Proof.
  intros Hbody Hdecode Hunmarshal.
  rewrite /Handle Hbody Hdecode Hunmarshal.
  run_handler. eexists. split; first reflexivity.
  split_and!; reflexivity.
Qed.

Lemma Handle_unmarshal_error_panics_witness :
  ∃ σ, Handle truncated (post truncatedBlock) fresh = (Panics NilDereference, σ)
       ∧ status (w σ) = None
       ∧ written (w σ) = []
       ∧ reads σ = [].
Proof.
  apply (Handle_unmarshal_error_panics truncated (post truncatedBlock)
           truncatedBlock (String "255" "") {| Queries := [] |} "unexpected EOF");
    reflexivity.
Defined.

(** The claim of C4 fails as it stands: when the store hands back a row
    whose label holds a number, the type assertion of [buildKey] panics and
    the handler does not return. *)
Lemma Handle_panic_counterexample :
  (Handle (served oneQuery ([numbered], None)) (post "request") fresh).1
  = Panics InterfaceConversion.
Proof. vm_compute. reflexivity. Qed.

(** C4, amended. When the request does not fail at the deserialization
    step and the rows the store hands back satisfy the Row precondition,
    the handler returns to its caller with the status 200, 400 or 500 sent.
    When one of those rows breaks the precondition, the handler panics on a
    type assertion before it writes anything. *)
Theorem Handle_returns env r :
  unmarshalFails env r = false →
  ((∀ rows, storeRows env r = Some rows → forallb rowTyped rows = true) →
   ∃ σ, Handle env r fresh = (Done tt, σ)
        ∧ (status (w σ) = Some StatusOK
           ∨ status (w σ) = Some StatusBadRequest
           ∨ status (w σ) = Some StatusInternalServerError))
  ∧ (∀ rows, storeRows env r = Some rows → forallb rowTyped rows = false →
     ∃ σ, Handle env r fresh = (Panics InterfaceConversion, σ)
          ∧ status (w σ) = None ∧ written (w σ) = []).
Proof.
  rewrite /unmarshalFails /storeRows /Handle.
  destruct (Body r) as [compressed [e|]].
  { intros _. split; last discriminate. intros _. run_handler.
    eexists. split; first reflexivity. cbn [w status]. auto. }
  destruct (snappy_Decode env compressed) as [reqBuf [e|]].
  { intros _. split; last discriminate. intros _. run_handler.
    eexists. split; first reflexivity. cbn [w status]. auto. }
  destruct (proto_Unmarshal env reqBuf) as [req [e|]]; first discriminate.
  intros _. case_bool_decide as Hcount; last first.
  { split; last discriminate. intros _. run_handler.
    eexists. split; first reflexivity. cbn [w status]. auto. }
  run_handler. destruct (reader_Read env req) as [rows [e|]].
  { split; last discriminate. intros _.
    eexists. split; first reflexivity. cbn [w status]. auto. }
  split.
  - intros Hty. specialize (Hty rows eq_refl).
    destruct (responseToTimeseries_grouped (map_order env) rows Hty)
      as (m & series & -> & _).
    destruct (proto_Marshal env _) as [data [e|]].
    { eexists. split; first reflexivity. cbn [w status]. auto. }
    destruct (conn_Write env (snappy_Encode env data)) as [e|].
    + eexists. split; first reflexivity. cbn [w status]. auto.
    + eexists. split; first reflexivity. cbn [w status]. auto.
  - intros rows' [= <-] Hty. rewrite (responseToTimeseries_untyped _ _ Hty).
    eexists. split; first reflexivity. split; reflexivity.
Qed.

Lemma Handle_returns_witness :
  ∃ σ, Handle (served oneQuery (scenario, None)) (post "request") fresh = (Done tt, σ)
       ∧ (status (w σ) = Some StatusOK
          ∨ status (w σ) = Some StatusBadRequest
          ∨ status (w σ) = Some StatusInternalServerError).
Proof.
  apply (Handle_returns (served oneQuery (scenario, None)) (post "request")).
  - reflexivity.
  - intros rows [= <-]. exact scenario_typed.
Defined.

(** * Further properties of [Handle] *)

(** X1. A body that cannot be read is answered with status 400 and the text of
    the read error; the store is not called. *)
Theorem Handle_read_error env r compressed msg :
  Body r = (compressed, Some msg) →
  ∃ σ, Handle env r fresh = (Done tt, σ)
       ∧ status (w σ) = Some StatusBadRequest
       ∧ written (w σ) = [msg +:+ newline]
       ∧ reads σ = []
       ∧ logged σ = ["Failed to read body."].
Proof.
  intros Hbody. rewrite /Handle Hbody. run_handler.
  eexists. split; first reflexivity. split_and!; reflexivity.
Qed.

Lemma Handle_read_error_witness :
  ∃ σ, Handle (served oneQuery ([], None)) {| Body := ("par", Some "unexpected EOF") |} fresh
         = (Done tt, σ)
       ∧ status (w σ) = Some StatusBadRequest
       ∧ written (w σ) = ["unexpected EOF" +:+ newline]
       ∧ reads σ = []
       ∧ logged σ = ["Failed to read body."].
Proof.
  apply (Handle_read_error (served oneQuery ([], None))
           {| Body := ("par", Some "unexpected EOF") |} "par" "unexpected EOF").
  reflexivity.
Defined.

(** X2. A body that does not decompress is answered with status 400 and the
    text of the decompression error; nothing is deserialized and the store
    is not called. *)
Theorem Handle_decompress_error env r compressed reqBuf msg :
  Body r = (compressed, None) →
  snappy_Decode env compressed = (reqBuf, Some msg) →
  ∃ σ, Handle env r fresh = (Done tt, σ)
       ∧ status (w σ) = Some StatusBadRequest
       ∧ written (w σ) = [msg +:+ newline]
       ∧ reads σ = []
       ∧ logged σ = ["Failed to decompress body."].
Proof.
  intros Hbody Hdecode. rewrite /Handle Hbody Hdecode. run_handler.
  eexists. split; first reflexivity. split_and!; reflexivity.
Qed.

Lemma Handle_decompress_error_witness :
  ∃ σ, Handle truncated (post "plain text") fresh = (Done tt, σ)
       ∧ status (w σ) = Some StatusBadRequest
       ∧ written (w σ) = ["snappy: corrupt input" +:+ newline]
       ∧ reads σ = []
       ∧ logged σ = ["Failed to decompress body."].
Proof.
  apply (Handle_decompress_error truncated (post "plain text")
           "plain text" "" "snappy: corrupt input"); reflexivity.
Defined.

(** X3. The reply to a request that succeeds: status 200, the headers of a
    protocol message, and one write, of the compressed serialization of a
    response that holds exactly one result with the series built from the
    store's rows. The store is called once, with the decoded request. *)
Theorem Handle_success env r compressed reqBuf req rows series data :
  Body r = (compressed, None) →
  snappy_Decode env compressed = (reqBuf, None) →
  proto_Unmarshal env reqBuf = (req, None) →
  length (Queries req) = 1%nat →
  reader_Read env req = (rows, None) →
  responseToTimeseries (map_order env) rows = Done series →
  proto_Marshal env {| Results := [{| Timeseries := series |}] |} = (data, None) →
  conn_Write env (snappy_Encode env data) = None →
  ∃ σ, Handle env r fresh = (Done tt, σ)
       ∧ status (w σ) = Some StatusOK
       ∧ written (w σ) = [snappy_Encode env data]
       ∧ header (w σ) !! "Content-Type" = Some "application/x-protobuf"
       ∧ header (w σ) !! "Content-Encoding" = Some "snappy"
       ∧ reads σ = [req].
Proof.
  intros Hbody Hdecode Hunmarshal Hcount Hread Hseries Hmarshal Hwrite.
  rewrite /Handle Hbody Hdecode Hunmarshal.
  rewrite bool_decide_eq_true_2; first exact Hcount.
  run_handler. rewrite Hread Hseries Hmarshal Hwrite.
  eexists. split; first reflexivity.
  cbn [w header status written reads].
  split_and!; [reflexivity|reflexivity| | |reflexivity].
  - rewrite lookup_insert_ne; first discriminate. by rewrite lookup_insert_eq.
  - by rewrite lookup_insert_eq.
Qed.

Lemma Handle_success_witness :
  ∃ σ, Handle (answering None None) (post "request") fresh = (Done tt, σ)
       ∧ status (w σ) = Some StatusOK
       ∧ written (w σ) = ["snappy:response"]
       ∧ header (w σ) !! "Content-Type" = Some "application/x-protobuf"
       ∧ header (w σ) !! "Content-Encoding" = Some "snappy"
       ∧ reads σ = [oneQuery].
Proof.
  apply (Handle_success (answering None None) (post "request") "request" "request"
           oneQuery scenario [seriesA; seriesB] "response"); reflexivity.
Defined.

(** X4. A response that cannot be serialized is answered with status 500 and
    the text of the error, as plain text; the encoding header of a protocol
    message is not set. *)
Theorem Handle_marshal_error env r compressed reqBuf req rows series data msg :
  Body r = (compressed, None) →
  snappy_Decode env compressed = (reqBuf, None) →
  proto_Unmarshal env reqBuf = (req, None) →
  length (Queries req) = 1%nat →
  reader_Read env req = (rows, None) →
  responseToTimeseries (map_order env) rows = Done series →
  proto_Marshal env {| Results := [{| Timeseries := series |}] |} = (data, Some msg) →
  ∃ σ, Handle env r fresh = (Done tt, σ)
       ∧ status (w σ) = Some StatusInternalServerError
       ∧ written (w σ) = [msg +:+ newline]
       ∧ header (w σ) !! "Content-Type" = Some "text/plain; charset=utf-8"
       ∧ header (w σ) !! "Content-Encoding" = None
       ∧ reads σ = [req].
Proof.
  intros Hbody Hdecode Hunmarshal Hcount Hread Hseries Hmarshal.
  rewrite /Handle Hbody Hdecode Hunmarshal.
  rewrite bool_decide_eq_true_2; first exact Hcount.
  run_handler. rewrite Hread Hseries Hmarshal.
  eexists. split; first reflexivity.
  cbn [w header status written reads].
  split_and!; [reflexivity|reflexivity| | |reflexivity].
  - rewrite lookup_insert_ne; first discriminate. by rewrite lookup_insert_eq.
  - rewrite lookup_insert_ne; first discriminate.
    rewrite lookup_insert_ne; first discriminate. by rewrite lookup_empty.
Qed.

Lemma Handle_marshal_error_witness :
  ∃ σ, Handle (answering (Some "proto: required field not set") None) (post "request") fresh
         = (Done tt, σ)
       ∧ status (w σ) = Some StatusInternalServerError
       ∧ written (w σ) = ["proto: required field not set" +:+ newline]
       ∧ header (w σ) !! "Content-Type" = Some "text/plain; charset=utf-8"
       ∧ header (w σ) !! "Content-Encoding" = None
       ∧ reads σ = [oneQuery].
Proof.
  apply (Handle_marshal_error (answering (Some "proto: required field not set") None)
           (post "request") "request" "request" oneQuery scenario [seriesA; seriesB]
           "response" "proto: required field not set"); reflexivity.
Defined.

(** X5. When the write of the response fails, the status 200 has gone out with
    it: the call of [http.Error] cannot change it to 500. It appends the
    error text to what was written and replaces the content type, while the
    snappy encoding header stays. *)
Theorem Handle_write_error env r compressed reqBuf req rows series data msg :
  Body r = (compressed, None) →
  snappy_Decode env compressed = (reqBuf, None) →
  proto_Unmarshal env reqBuf = (req, None) →
  length (Queries req) = 1%nat →
  reader_Read env req = (rows, None) →
  responseToTimeseries (map_order env) rows = Done series →
  proto_Marshal env {| Results := [{| Timeseries := series |}] |} = (data, None) →
  conn_Write env (snappy_Encode env data) = Some msg →
  ∃ σ, Handle env r fresh = (Done tt, σ)
       ∧ status (w σ) = Some StatusOK
       ∧ written (w σ) = [snappy_Encode env data; msg +:+ newline]
       ∧ header (w σ) !! "Content-Type" = Some "text/plain; charset=utf-8"
       ∧ header (w σ) !! "Content-Encoding" = Some "snappy".
Proof.
  intros Hbody Hdecode Hunmarshal Hcount Hread Hseries Hmarshal Hwrite.
  rewrite /Handle Hbody Hdecode Hunmarshal.
  rewrite bool_decide_eq_true_2; first exact Hcount.
  run_handler. rewrite Hread Hseries Hmarshal Hwrite.
  eexists. split; first reflexivity.
  cbn [w header status written reads].
  split_and!; [reflexivity|reflexivity| |].
  - rewrite lookup_insert_ne; first discriminate. by rewrite lookup_insert_eq.
  - rewrite lookup_insert_ne; first discriminate.
    rewrite lookup_insert_ne; first discriminate. by rewrite lookup_insert_eq.
Qed.

Lemma Handle_write_error_witness :
  ∃ σ, Handle (answering None (Some "broken pipe")) (post "request") fresh = (Done tt, σ)
       ∧ status (w σ) = Some StatusOK
       ∧ written (w σ) = ["snappy:response"; "broken pipe" +:+ newline]
       ∧ header (w σ) !! "Content-Type" = Some "text/plain; charset=utf-8"
       ∧ header (w σ) !! "Content-Encoding" = Some "snappy".
Proof.
  apply (Handle_write_error (answering None (Some "broken pipe")) (post "request")
           "request" "request" oneQuery scenario [seriesA; seriesB] "response" "broken pipe");
    reflexivity.
Defined.

(** Case analysis on what the collaborators answer, one goal for each way
    through the handler. *)
Ltac handler_cases env r :=
  rewrite /Handle;
  destruct (Body r) as [? [?|]]; run_handler;
  [|destruct (snappy_Decode env _) as [? [?|]]; run_handler;
    [|destruct (proto_Unmarshal env _) as [req [?|]]; run_handler;
      [|case_bool_decide; run_handler;
        [destruct (reader_Read env req) as [rows [?|]]; run_handler;
         [|destruct (responseToTimeseries (map_order env) rows) as [series|?]; run_handler;
           [destruct (proto_Marshal env _) as [data [?|]]; run_handler;
            [|destruct (conn_Write env (snappy_Encode env data)) as [?|]; run_handler]|]]|]]]].

(** X6. Whatever the collaborators answer, a run of the handler ends in one of
    two ways: it returns with one of the statuses 200, 400 and 500 sent, or
    it panics with no status sent and nothing written. *)
Theorem Handle_reply_or_panic env r :
  match Handle env r fresh with
  | (Done _, σ) =>
      status (w σ) = Some StatusOK
      ∨ status (w σ) = Some StatusBadRequest
      ∨ status (w σ) = Some StatusInternalServerError
  | (Panics _, σ) => status (w σ) = None ∧ written (w σ) = []
  end.
Proof. handler_cases env r; cbn [w status written]; auto. Qed.

(** X7. The store client's [Read] is called at most once in a run, and only
    with a request that holds exactly one query. *)
Theorem Handle_reads_at_most_once env r :
  reads (Handle env r fresh).2 = []
  ∨ ∃ req, reads (Handle env r fresh).2 = [req] ∧ length (Queries req) = 1%nat.
Proof.
  handler_cases env r; cbn [snd reads app]; try (by left); right; by eexists.
Qed.

(** X8. A reply with a status other than 200 is always an error text on a
    line of its own, sent as plain text and in one write. *)
Theorem Handle_error_reply env r :
  match Handle env r fresh with
  | (Done _, σ) =>
      status (w σ) = Some StatusOK
      ∨ ∃ msg, written (w σ) = [msg +:+ newline]
               ∧ header (w σ) !! "Content-Type" = Some "text/plain; charset=utf-8"
               ∧ header (w σ) !! "Content-Encoding" = None
  | (Panics _, _) => True
  end.
Proof.
  handler_cases env r; cbn [w status written header app]; try done; try (by left);
    right; eexists; (split; first reflexivity);
    (split;
     [ rewrite lookup_insert_ne; first discriminate; by rewrite lookup_insert_eq
     | rewrite lookup_insert_ne; first discriminate;
       rewrite lookup_insert_ne; first discriminate; by rewrite lookup_empty ]).
Qed.

(** * Further properties of [buildKey] *)

Lemma buildKey_ext o1 n1 o2 n2 (r1 r2 : Row) :
  labelEntries (map_to_list r1) ≡ₚ labelEntries (map_to_list r2) →
  buildKey o1 n1 r1 = buildKey o2 n2 r2.
Proof.
  intros Hperm.
  assert (labelsTyped r1 = labelsTyped r2) as Hty
    by by rewrite /labelsTyped (forallb_perm _ _ _ Hperm).
  destruct (labelsTyped r2) eqn:Ht2.
  - rewrite !buildKey_typed //. rewrite /seriesKey /labelValues. do 2 f_equal.
    apply sort_Strings_perm. by rewrite Hperm.
  - by rewrite !buildKey_untyped.
Qed.

Lemma labelEntries_insert_reserved (datapoint : Row) k v :
  is_label k = false →
  labelEntries (map_to_list (<[k := v]> datapoint)) ≡ₚ labelEntries (map_to_list datapoint).
Proof.
  intros Hk.
  assert (∀ x : iface, ¬ is_label (k, x).1) as Hnot by (intros x; rewrite /= Hk; intros []).
  rewrite -insert_delete_eq /labelEntries.
  rewrite (map_to_list_insert (delete k datapoint) k v (lookup_delete_eq datapoint k)).
  rewrite (filter_cons_False (λ kv : string * iface, is_label kv.1) (k, v) _ (Hnot v)).
  destruct (datapoint !! k) as [old|] eqn:Hold.
  - rewrite -(map_to_list_delete datapoint k old Hold).
    by rewrite (filter_cons_False (λ kv : string * iface, is_label kv.1) (k, old) _ (Hnot old)).
  - by rewrite delete_id.
Qed.

(** X9. The order in which [range] visits the fields of a row does not show in
    the outcome of [buildKey], neither in the key nor in whether it panics. *)
Theorem buildKey_order_independent o1 n1 o2 n2 (datapoint : Row) :
  buildKey o1 n1 datapoint = buildKey o2 n2 datapoint.
Proof. by apply buildKey_ext. Qed.

(** X10. The fields [value] and [timestamp] have no part in the key: setting
    either of them, to any value at all, leaves the outcome of [buildKey]
    as it was. *)
Theorem buildKey_ignores_sample_fields o n (datapoint : Row) v :
  buildKey o n (<["value" := v]> datapoint) = buildKey o n datapoint
  ∧ buildKey o n (<["timestamp" := v]> datapoint) = buildKey o n datapoint.
Proof. split; by apply buildKey_ext, labelEntries_insert_reserved. Qed.

(** X11. A row without labels (no field besides [value] and [timestamp]) has the
    empty key. *)
Theorem buildKey_no_labels o n (datapoint : Row) :
  (∀ k, is_Some (datapoint !! k) → k = "value" ∨ k = "timestamp") →
  buildKey o n datapoint = Done "".
Proof.
  intros Honly.
  assert (labelEntries (map_to_list datapoint) = []) as Hnone.
  { apply elem_of_nil_inv. intros [k v] [Hk Hkv%elem_of_map_to_list]%list_elem_of_filter.
    assert (is_Some (datapoint !! k)) as Hsome by by eexists.
    destruct (Honly k Hsome) as [Hv|Ht]; subst k; exact Hk. }
  rewrite buildKey_typed; first by rewrite /labelsTyped Hnone.
  by rewrite /seriesKey /labelValues Hnone.
Qed.

Lemma buildKey_no_labels_witness :
  buildKey canonical 0 (<["value" := IFloat64 1.0%float]> (<["timestamp" := IString "now"]> ∅))
  = Done "".
Proof.
  apply buildKey_no_labels. intros k [v Hk].
  destruct (decide (k = "value")) as [->|Hv]; first by left.
  destruct (decide (k = "timestamp")) as [->|Ht]; first by right.
  rewrite lookup_insert_ne in Hk; first done.
  rewrite lookup_insert_ne in Hk; first done.
  by rewrite lookup_empty in Hk.
Defined.

Lemma forallb_false {A} (f : A → bool) l :
  forallb f l = false → ∃ x, x ∈ l ∧ f x = false.
Proof.
  induction l as [|x l IH]; first done.
  simpl. destruct (f x) eqn:Hx.
  - intros (y & Hy & Hfy)%IH. exists y. split; [by right|done].
  - intros _. exists x. split; [by left|done].
Qed.

(** X12. [buildKey] panics exactly when some label of the row holds something
    other than a string; otherwise it returns. *)
Theorem buildKey_panics_iff o n (datapoint : Row) :
  (∃ k v, datapoint !! k = Some v ∧ is_label k = true ∧ is_string v = false)
  ↔ buildKey o n datapoint = Panics InterfaceConversion.
Proof.
  destruct (labelsTyped datapoint) eqn:Hty.
  - rewrite buildKey_typed //. split; last done.
    intros (k & v & Hkv & Hk & Hv).
    pose proof (proj1 (labelsTyped_spec datapoint) Hty k v Hkv Hk) as Hs.
    rewrite Hs in Hv. discriminate Hv.
  - rewrite buildKey_untyped //. split; first done. intros _.
    apply forallb_false in Hty as ([k v] & [Hk Hkv%elem_of_map_to_list]%list_elem_of_filter & Hv).
    exists k, v. split_and!; [done| |done]. simpl in Hk. by destruct (is_label k).
Qed.

(** * Further properties of [responseToTimeseries] *)

(** X13. No rows, no series. *)
Theorem responseToTimeseries_nil o : responseToTimeseries o [] = Done [].
Proof.
  rewrite /responseToTimeseries /=.
  assert (range_order o 0 (∅ : gmap string TimeSeries) = []) as Hnil.
  { apply Permutation_nil_r. by rewrite range_order_perm map_to_list_empty. }
  by rewrite Hnil.
Qed.

(** X14. [responseToTimeseries] returns when every row satisfies the Row
    precondition, and panics on a type assertion when some row does not. *)
Theorem responseToTimeseries_returns_iff o dataPoints :
  if forallb rowTyped dataPoints
  then ∃ series, responseToTimeseries o dataPoints = Done series
  else responseToTimeseries o dataPoints = Panics InterfaceConversion.
Proof.
  destruct (forallb rowTyped dataPoints) eqn:Hty.
  - destruct (responseToTimeseries_grouped o dataPoints Hty) as (_ & series & Hrun & _).
    by exists series.
  - by apply responseToTimeseries_untyped.
Qed.

(** X15. A row that lacks the field [timestamp] or the field [value] makes the
    whole conversion panic, wherever it stands in the sequence and whatever
    its labels are. *)
Theorem responseToTimeseries_missing_field o dataPoints (datapoint : Row) :
  datapoint ∈ dataPoints →
  datapoint !! "timestamp" = None ∨ datapoint !! "value" = None →
  responseToTimeseries o dataPoints = Panics InterfaceConversion.
Proof.
  intros Hin Hmissing. apply responseToTimeseries_untyped.
  destruct (forallb rowTyped dataPoints) eqn:Hty; last done.
  rewrite forallb_forall in Hty. specialize (Hty datapoint).
  rewrite -list_elem_of_In in Hty. specialize (Hty Hin).
  rewrite /rowTyped /index in Hty.
  destruct Hmissing as [Hm|Hm]; rewrite Hm /= in Hty.
  - by rewrite andb_false_r in Hty.
  - by rewrite andb_false_r in Hty.
Qed.

Lemma responseToTimeseries_missing_field_witness :
  responseToTimeseries canonical
    [early; <["host" := IString "a"]> (<["value" := IFloat64 2.0%float]> ∅)]
  = Panics InterfaceConversion.
Proof.
  apply (responseToTimeseries_missing_field canonical _
           (<["host" := IString "a"]> (<["value" := IFloat64 2.0%float]> ∅))).
  - apply list_elem_of_further, list_elem_of_here.
  - left. vm_compute. reflexivity.
Defined.

Lemma keys_of_series (m : gmap string TimeSeries) dataPoints :
  grouped dataPoints m →
  keyOfSeries <$> (map_to_list m).*2 = (map_to_list m).*1.
Proof.
  intros Hgr. rewrite -list_fmap_compose. apply list_fmap_ext.
  intros i [key ts] Hi. simpl.
  assert (m !! key = Some ts) as Hkey.
  { apply elem_of_map_to_list, list_elem_of_lookup. by exists i. }
  by destruct (grouped_lookup _ _ _ _ Hgr Hkey) as (_ & _ & _ & _ & _ & ?).
Qed.

(** X16. One series for each Series Key: the keys of the returned series are
    pairwise different, and they are the keys of the input rows. *)
Theorem responseToTimeseries_one_series_per_key o dataPoints :
  forallb rowTyped dataPoints = true →
  ∃ series,
    responseToTimeseries o dataPoints = Done series
    ∧ NoDup (keyOfSeries <$> series)
    ∧ ∀ key, key ∈ keyOfSeries <$> series ↔ key ∈ seriesKey <$> dataPoints.
Proof.
  intros Hty.
  destruct (responseToTimeseries_grouped o dataPoints Hty)
    as (m & series & Hrun & Hperm & Hgr & _).
  exists series. split_and!; first done.
  - rewrite Hperm (keys_of_series m dataPoints) //. apply NoDup_fst_map_to_list.
  - intros key. by apply (series_keys m).
Qed.

Lemma responseToTimeseries_one_series_per_key_witness :
  ∃ series,
    responseToTimeseries canonical scenario = Done series
    ∧ NoDup (keyOfSeries <$> series)
    ∧ ∀ key, key ∈ keyOfSeries <$> series ↔ key ∈ seriesKey <$> scenario.
Proof.
  apply (responseToTimeseries_one_series_per_key canonical scenario). exact scenario_typed.
Defined.

(** X17. Every returned series has at least one sample, and its labels are the
    fields, other than [value] and [timestamp], of the first row that has
    its Series Key. *)
Theorem responseToTimeseries_series_shape o dataPoints :
  forallb rowTyped dataPoints = true →
  ∃ series,
    responseToTimeseries o dataPoints = Done series
    ∧ ∀ ts, ts ∈ series →
        Samples ts ≠ []
        ∧ ∃ first rest,
            rowsOf (keyOfSeries ts) dataPoints = first :: rest
            ∧ ∀ name value,
                {| Label_Name := name; Label_Value := value |} ∈ Labels ts
                ↔ first !! name = Some (IString value)
                  ∧ name ≠ "value" ∧ name ≠ "timestamp".
Proof.
  intros Hty.
  destruct (responseToTimeseries_grouped o dataPoints Hty)
    as (m & series & Hrun & Hperm & Hgr & _).
  exists series. split; first done.
  intros ts [key Hkey]%(elem_of_series m); last done.
  destruct (grouped_lookup _ _ _ _ Hgr Hkey) as (first & rest & Hrows & Hlab & Hsam & <-).
  split.
  - rewrite Hsam Hrows. done.
  - exists first, rest. split; first done. intros name value.
    rewrite Hlab. apply labelPairs_spec.
    assert (first ∈ rowsOf (keyOfSeries ts) dataPoints) as Hin by (rewrite Hrows; left).
    apply list_elem_of_filter in Hin as [_ Hin].
    rewrite forallb_forall in Hty. specialize (Hty first).
    rewrite -list_elem_of_In in Hty. specialize (Hty Hin).
    rewrite /rowTyped in Hty. by destruct (labelsTyped first).
Qed.

Lemma responseToTimeseries_series_shape_witness :
  ∃ series,
    responseToTimeseries canonical renamed = Done series
    ∧ ∀ ts, ts ∈ series →
        Samples ts ≠ []
        ∧ ∃ first rest,
            rowsOf (keyOfSeries ts) renamed = first :: rest
            ∧ ∀ name value,
                {| Label_Name := name; Label_Value := value |} ∈ Labels ts
                ↔ first !! name = Some (IString value)
                  ∧ name ≠ "value" ∧ name ≠ "timestamp".
Proof.
  apply (responseToTimeseries_series_shape canonical renamed). vm_compute. reflexivity.
Defined.

(** X18. The order in which [range] visits the maps shows only in the order of
    the returned series and of the labels within a series: two runs on the
    same rows return as many series, and each series of one run is matched
    in the other by a series with the same labels and the same samples. *)
Theorem responseToTimeseries_order_independent o o' dataPoints :
  forallb rowTyped dataPoints = true →
  ∃ series series',
    responseToTimeseries o dataPoints = Done series
    ∧ responseToTimeseries o' dataPoints = Done series'
    ∧ length series = length series'
    ∧ ∀ ts, ts ∈ series →
        ∃ ts', ts' ∈ series' ∧ Labels ts ≡ₚ Labels ts' ∧ Samples ts = Samples ts'.
Proof.
  intros Hty.
  destruct (responseToTimeseries_grouped o dataPoints Hty)
    as (m & series & Hrun & Hperm & Hgr & _).
  destruct (responseToTimeseries_grouped o' dataPoints Hty)
    as (m' & series' & Hrun' & Hperm' & Hgr' & _).
  exists series, series'. split_and!; [done|done| |].
  - rewrite Hperm Hperm' !length_fmap !length_map_to_list.
    rewrite -!size_dom. f_equal. apply set_eq. intros key.
    rewrite !elem_of_dom. pose proof (Hgr key) as H1. pose proof (Hgr' key) as H2.
    destruct (rowsOf key dataPoints).
    + by rewrite H1 H2.
    + destruct H1 as (? & -> & _). destruct H2 as (? & -> & _). done.
  - intros ts [key Hkey]%(elem_of_series m); last done.
    destruct (grouped_lookup _ _ _ _ Hgr Hkey) as (first & rest & Hrows & Hlab & Hsam & _).
    pose proof (Hgr' key) as H2. rewrite Hrows in H2.
    destruct H2 as (ts' & Hkey' & Hlab' & Hsam').
    exists ts'. split_and!.
    + apply (elem_of_series m'); first done. by eexists.
    + by rewrite Hlab Hlab'.
    + by rewrite Hsam Hsam' Hrows.
Qed.

Lemma responseToTimeseries_order_independent_witness :
  ∃ series series',
    responseToTimeseries canonical scenario = Done series
    ∧ responseToTimeseries backwards scenario = Done series'
    ∧ length series = length series'
    ∧ ∀ ts, ts ∈ series →
        ∃ ts', ts' ∈ series' ∧ Labels ts ≡ₚ Labels ts' ∧ Samples ts = Samples ts'.
Proof.
  apply (responseToTimeseries_order_independent canonical backwards scenario).
  exact scenario_typed.
Defined.
